(** * money-rag: ingestion pipeline, merchant enrichment, vector indexing,
      answer extraction and the read-only SQL tool

    A shallow embedding of [money_rag.py], [utils/data_ingestion.py] and
    [mcp_sql_server.py].  Python objects with state (the [MoneyRAG] instance,
    the SQLite table, the Qdrant collection) become explicit records that are
    passed through; functions that can raise return a sum; what the outside
    world answers (the language model, the web search, the embedding service,
    SQLite behind the query tool) is an argument of the function that asks.

    The first part holds the definitions, module by source file; the second
    part, from [PyStrFacts] on, what is proved of them. *)

From Stdlib Require Import ZArith Ascii String List Bool Lia.
From Stdlib Require Import Floats.SpecFloat.
From stdpp Require Import base option list gmap strings.

Local Open Scope Z_scope.

(** ** Python [str] operations used by the sources

    Strings are sequences of characters with codes below 256; the operations
    below are Python's on the ASCII range (codes below 128), the alphabet of
    SQL keywords and of the constants compared in the sources.  A character
    with a code of 128 or more is left alone by [upper] and is no white
    space. *)
Module PyStr.

(** [str.isspace] on one ASCII character: TAB, LF, VT, FF, CR, the four
    separators FS, GS, RS, US, and the blank. *)
Definition is_space (c : ascii) : bool :=
  let n := N_of_ascii c in
  ((9 <=? n)%N && (n <=? 13)%N) || ((28 <=? n)%N && (n <=? 32)%N).

Definition upper_char (c : ascii) : ascii :=
  let n := N_of_ascii c in
  if ((97 <=? n)%N && (n <=? 122)%N) then ascii_of_N (n - 32) else c.

(** [s.upper()] *)
Fixpoint upper (s : string) : string :=
  match s with
  | EmptyString => EmptyString
  | String c s' => String (upper_char c) (upper s')
  end.

(** [s.lstrip()] *)
Fixpoint lstrip (s : string) : string :=
  match s with
  | EmptyString => EmptyString
  | String c s' => if is_space c then lstrip s' else s
  end.

(** [s.rstrip()] *)
Fixpoint rstrip (s : string) : string :=
  match s with
  | EmptyString => EmptyString
  | String c s' =>
      match rstrip s' with
      | EmptyString => if is_space c then EmptyString else String c EmptyString
      | r => String c r
      end
  end.

(** [s.strip()] *)
Definition strip (s : string) : string := rstrip (lstrip s).

(** [s.startswith(p)] *)
Fixpoint startswith (p s : string) : bool :=
  match p, s with
  | EmptyString, _ => true
  | String a p', String b s' => if Ascii.eqb a b then startswith p' s' else false
  | String _ _, EmptyString => false
  end.

(** [w in s] *)
Fixpoint contains (w s : string) : bool :=
  startswith w s ||
  match s with
  | EmptyString => false
  | String _ s' => contains w s'
  end.

(** [sep.join(parts)] for a list of [str] *)
Fixpoint join (sep : string) (parts : list string) : string :=
  match parts with
  | [] => EmptyString
  | [p] => p
  | p :: rest => p +:+ sep +:+ join sep rest
  end.

(** No character of [s] is white space. *)
Fixpoint no_space (s : string) : bool :=
  match s with
  | EmptyString => true
  | String c s' => negb (is_space c) && no_space s'
  end.

(** Every character of [s] is white space. *)
Fixpoint all_space (s : string) : bool :=
  match s with
  | EmptyString => true
  | String c s' => is_space c && all_space s'
  end.

End PyStr.

(** ** [mcp_sql_server.py]: the structured-query tool *)
Module McpSqlServer.
Import PyStr.

(** What SQLite does with a statement it is given: [sqlite3.connect] or
    [cursor.execute] raise a [sqlite3.Error], the statement raises something
    that is no [sqlite3.Error], or [fetchall] gives the rows, each already
    printed the way [str] prints a tuple. *)
Inductive sqlite_outcome :=
| ConnectError (msg : string)
| ExecuteError (msg : string)
| OtherException
| Fetched (rows : list string).

(** What the tool touched of the database. *)
Inductive db_event :=
| Connect
| Execute (statement : string).

Inductive tool_result :=
| Returned (s : string)
| Raised.

Record run := { outcome : tool_result; trace : list db_event }.

Definition forbidden : list string :=
  ["INSERT"; "UPDATE"; "DELETE"; "DROP"; "ALTER"; "CREATE"; "REPLACE"; "TRUNCATE"].

(** [str(results)] of a non-empty list of tuples. *)
Definition str_results (rows : list string) : string :=
  "[" +:+ join ", " rows +:+ "]".

Section QueryDatabase.
Variable sqlite : string -> sqlite_outcome.

Definition query_database (query : string) : run :=
  let query_upper := upper (strip query) in
  if negb (startswith "SELECT" query_upper) && negb (startswith "PRAGMA" query_upper)
  then {| outcome := Returned "Error: Only SELECT and PRAGMA queries are allowed";
          trace := [] |}
  else if existsb (fun forbidden_word => contains forbidden_word query_upper) forbidden
  then {| outcome := Returned "Error: Query contains forbidden operation. Only SELECT queries allowed.";
          trace := [] |}
  else
    match sqlite query with
    | ConnectError msg =>
        {| outcome := Returned ("Error: " +:+ msg); trace := [Connect] |}
    | ExecuteError msg =>
        {| outcome := Returned ("Error: " +:+ msg); trace := [Connect; Execute query] |}
    | OtherException =>
        {| outcome := Raised; trace := [Connect; Execute query] |}
    | Fetched [] =>
        {| outcome := Returned "No results found"; trace := [Connect; Execute query] |}
    | Fetched rows =>
        {| outcome := Returned (str_results rows); trace := [Connect; Execute query] |}
    end.
End QueryDatabase.

(** *** [get_schema_info]: the schema resource *)

(** The line feed. *)
Definition lf : string := String (ascii_of_nat 10) EmptyString.

(** One row of [PRAGMA table_info]: the six fields the loop unpacks. *)
Record column_info := {
  col_id : Z;
  col_name : string;
  col_type : string;
  not_null : Z;
  default_val : option string;
  pk : Z
}.

(** What SQLite answers to the statements of [get_schema_info]: the names
    fetched for [SELECT name FROM sqlite_master WHERE type='table';], and
    the rows fetched for a [PRAGMA table_info] statement; [None] where
    [sqlite3.connect] or [cursor.execute] raise.  The connection, which is
    closed only when no statement raised, is left out. *)
Record catalog := {
  master : option (list string);
  table_info : string -> option (list column_info)
}.

Definition table_info_statement (table_name : string) : string :=
  "PRAGMA table_info(" +:+ table_name +:+ ");".

Definition table_line (table_name : string) : string :=
  lf +:+ "Table: " +:+ table_name.

Definition column_line (col : column_info) : string :=
  "  - " +:+ col_name col +:+ " (" +:+ col_type col +:+ ")".

(** The loop over the tables that fills [schema_info]; nothing catches
    what a statement raises. *)
Fixpoint schema_lines (db : catalog) (tables : list string) : option (list string) :=
  match tables with
  | [] => Some []
  | table_name :: rest =>
      match table_info db (table_info_statement table_name) with
      | None => None
      | Some columns =>
          match schema_lines db rest with
          | None => None
          | Some lines =>
              Some (table_line table_name :: "Columns:" :: (column_line <$> columns) ++ lines)
          end
      end
  end.

Definition get_schema_info (db : catalog) : option string :=
  match master db with
  | None => None
  | Some tables =>
      match schema_lines db tables with
      | None => None
      | Some schema_info => Some (join lf schema_info)
      end
  end.

(** The resource [schema://database/tables]. *)
Definition get_database_schema (db : catalog) : option string := get_schema_info db.

End McpSqlServer.

(** ** Values of a pandas frame *)
Module Pandas.

(** Binary64: 53 bits of precision, infinities at exponent 1024. *)
Definition prec : Z := 53.
Definition emax : Z := 1024.

Definition int64_min : Z := - 2 ^ 63.
Definition int64_max : Z := 2 ^ 63 - 1.

(** Two's complement wrap-around of numpy's [int64] arithmetic. *)
Definition wrap64 (z : Z) : Z := (z + 2 ^ 63) mod 2 ^ 64 - 2 ^ 63.

(** The float [-1.0], which the Python integer [-1] becomes when it meets
    a [float64] array. *)
Definition minus_one : spec_float := S754_finite true 4503599627370496 (-52).

(** One cell: a [str], an [int64] or a [float64] (NaN marks a missing
    cell). *)
Inductive cell :=
| CStr (s : string)
| CInt (z : Z)
| CFloat (f : spec_float).

Definition NaN : cell := CFloat S754_nan.

(** A column of a frame, by dtype. *)
Inductive column :=
| Int64Col (l : list Z)
| Float64Col (l : list spec_float)
| ObjectCol (l : list cell).

(** A numeric Series, the result of [pd.to_numeric]. *)
Inductive series :=
| Int64Series (l : list Z)
| Float64Series (l : list spec_float).

Definition column_cells (c : column) : list cell :=
  match c with
  | Int64Col l => CInt <$> l
  | Float64Col l => CFloat <$> l
  | ObjectCol l => l
  end.

Definition series_cells (s : series) : list cell :=
  match s with
  | Int64Series l => CInt <$> l
  | Float64Series l => CFloat <$> l
  end.

(** [s * -1] *)
Definition series_mul_neg1 (s : series) : series :=
  match s with
  | Int64Series l => Int64Series ((fun z => wrap64 (z * -1)) <$> l)
  | Float64Series l => Float64Series ((fun f => SFmul prec emax f minus_one) <$> l)
  end.

(** The negation of a numeric cell in its own dtype ([-x]); text has
    none. *)
Definition cell_neg (c : cell) : cell :=
  match c with
  | CInt z => CInt (wrap64 (- z))
  | CFloat f => CFloat (SFopp f)
  | CStr s => CStr s
  end.

(** The cells of a well-formed numeric Series: integers in the [int64]
    range, floats in canonical binary64 form. *)
Definition cell_valid (c : cell) : bool :=
  match c with
  | CInt z => (int64_min <=? z) && (z <=? int64_max)
  | CFloat f => valid_binary prec emax f
  | CStr _ => false
  end.

(** The result of [pd.read_csv]: [len(df)] and the columns by header. *)
Record DataFrame := {
  df_len : nat;
  df_columns : gmap string column
}.

(** Label alignment on a [RangeIndex]: the cell at position [i], or NaN
    where the Series has none. *)
Definition cell_at (l : list cell) (i : nat) : cell := default NaN (l !! i).

(** [Series.unique()]: the distinct values in order of first appearance. *)
Fixpoint unique_go `{Countable K} (seen : gset K) (l : list K) : list K :=
  match l with
  | [] => []
  | x :: l' =>
      if decide (x ∈ seen) then unique_go seen l'
      else x :: unique_go ({[x]} ∪ seen) l'
  end.

Definition unique `{Countable K} (l : list K) : list K := unique_go ∅ l.

(** [Series.map(d)] for a dict [d]: the value under the cell, or NaN
    ([None] here) when the dict has no such key. *)
Definition series_map `{Countable K} (d : gmap K string) (l : list K) : list (option string) :=
  (fun k => d !! k) <$> l.

(** [Series.fillna(v)] *)
Definition fillna (v : string) (l : list (option string)) : list (option string) :=
  (fun c => Some (default v c)) <$> l.

End Pandas.

(** ** Errors raised by the sources, and the error monad that threads them *)
Module Exn.

Inductive exn :=
| OutputParserException                (* the completion is no JSON *)
| KeyError (key : option string)       (* a dict or a frame has no such key *)
| ConversionError (what : string)      (* pd.to_datetime / pd.to_numeric *)
| DatabaseError                        (* no table [transactions] *)
| ValueError (msg : string)
| TypeError.

Definition result (A : Type) : Type := exn + A.

Definition ok {A} (a : A) : result A := inr a.
Definition raise {A} (e : exn) : result A := inl e.

Definition bind {A B} (r : result A) (k : A -> result B) : result B :=
  match r with
  | inl e => inl e
  | inr a => k a
  end.

Definition is_ok {A} (r : result A) : bool :=
  match r with inr _ => true | inl _ => false end.

End Exn.

Notation "'do' x <- e ; k" := (Exn.bind e (fun x => k))
  (at level 10, x name, e at level 100, k at level 200).

(** ** The merchant enricher: [get_merchant_info] and the gathered batch

    A description is any hashable value [K]; [fmt] is how an f-string prints
    it. *)
Module Enricher.

(** The semaphore of [_ingest_csv]: [asyncio.Semaphore(5)]. *)
Definition semaphore_value : nat := 5.

Section Enricher.
Context `{Countable K}.
Variable fmt : K -> string.

(** Answers of [search_tool.ainvoke] to a query: [Some result], or [None]
    when the call raises an [Exception]. *)
Variable search_tool : string -> option string.

(** The session cache and, as a ghost field, the queries sent to the
    search tool so far. *)
Record lookup_state := {
  merchant_cache : gmap K string;
  searches : list string
}.

Definition question (description : K) : string :=
  "What type of business / store is '" +:+ fmt description +:+ "'?".

(** One run of [get_merchant_info] from entry to [return]. *)
Definition get_merchant_info (description : K) (st : lookup_state)
  : string * lookup_state :=
  match merchant_cache st !! description with
  | Some cached => (cached, st)
  | None =>
      let sent := searches st ++ [question description] in
      match search_tool (question description) with
      | Some result =>
          (result, {| merchant_cache := <[description := result]> (merchant_cache st);
                      searches := sent |})
      | None =>
          ("Unknown", {| merchant_cache := merchant_cache st; searches := sent |})
      end
  end.

(** [await asyncio.gather] over the tasks: the results in task order.
    The tasks are run here one after the other.  They carry pairwise
    distinct descriptions (they come from [unique()]), so a task neither
    reads nor writes the cache entry of another one, and however the event
    loop interleaves them the outcome is this one: see [step] below and
    [EventLoopFacts.gather_any_schedule]. *)
Fixpoint gather (descriptions : list K) (st : lookup_state)
  : list string * lookup_state :=
  match descriptions with
  | [] => ([], st)
  | d :: rest =>
      let '(r, st1) := get_merchant_info d st in
      let '(rs, st2) := gather rest st1 in
      (r :: rs, st2)
  end.

(** [dict(zip(keys, values))] *)
Definition dict_zip (keys : list K) (values : list string) : gmap K string :=
  list_to_map (reverse (zip keys values)).

(** One enrichment batch, the enrichment step of [_ingest_csv] taken
    together: the unique descriptions are looked up and zipped with what
    came back. *)
Definition enrich_batch (descriptions : list K) (st : lookup_state)
  : gmap K string * lookup_state :=
  let unique_descriptions := Pandas.unique descriptions in
  let '(enrichment_results, st') := gather unique_descriptions st in
  (dict_zip unique_descriptions enrichment_results, st').

(** What a description resolves to against a cache: the cached value, or
    else what the search tool says, or else "Unknown". *)
Definition resolve (cache : gmap K string) (description : K) : string :=
  match cache !! description with
  | Some cached => cached
  | None => default "Unknown" (search_tool (question description))
  end.

(** The descriptions of a batch that the cache does not hold. *)
Definition misses (cache : gmap K string) (descriptions : list K) : list K :=
  filter (fun d => cache !! d = None) descriptions.

(** *** The event loop, one step at a time

    The same batch as the event loop runs it: the tasks of [gather] take
    turns, each running from one [await] to the next.  [step] lets any task
    that can move do so, which is more freedom than asyncio gives (it runs
    ready tasks in order and wakes the waiters of a semaphore first come,
    first served); what holds for every run of [step] holds for the runs
    asyncio makes.

    Where each task of the batch stands: not started, parked on the
    semaphore, holding it in [asyncio.sleep], holding it with the search
    sent, or returned. *)
Inductive task_state :=
| Created
| Waiting
| Sleeping
| Searching
| Finished (result : string).

Record loop_state := {
  sem : nat;
  tasks : list (K * task_state);
  loop_cache : gmap K string;
  loop_searches : list string
}.

Definition holds_semaphore (t : task_state) : bool :=
  match t with
  | Sleeping | Searching => true
  | _ => false
  end.

(** The lookups in flight: tasks inside [async with sem]. *)
Definition in_flight (s : loop_state) : nat :=
  length (filter (fun kt => holds_semaphore kt.2 = true) (tasks s)).

Definition gather_init (descriptions : list K) (cache : gmap K string) : loop_state :=
  {| sem := semaphore_value;
     tasks := (fun d => (d, Created)) <$> descriptions;
     loop_cache := cache;
     loop_searches := [] |}.

Definition set_task (i : nat) (t : task_state) (s : loop_state) : list (K * task_state) :=
  alter (fun kt => (kt.1, t)) i (tasks s).

Inductive step : loop_state -> loop_state -> Prop :=
(* first run of a task: the cache has the description *)
| step_hit s i d v :
    tasks s !! i = Some (d, Created) ->
    loop_cache s !! d = Some v ->
    step s {| sem := sem s; tasks := set_task i (Finished v) s;
              loop_cache := loop_cache s; loop_searches := loop_searches s |}
(* first run, a miss, the semaphore is free: enter and sleep *)
| step_enter s i d n :
    tasks s !! i = Some (d, Created) ->
    loop_cache s !! d = None ->
    sem s = S n ->
    step s {| sem := n; tasks := set_task i Sleeping s;
              loop_cache := loop_cache s; loop_searches := loop_searches s |}
(* first run, a miss, the semaphore is taken: park *)
| step_park s i d :
    tasks s !! i = Some (d, Created) ->
    loop_cache s !! d = None ->
    sem s = O ->
    step s {| sem := sem s; tasks := set_task i Waiting s;
              loop_cache := loop_cache s; loop_searches := loop_searches s |}
(* a parked task is woken once a slot is free *)
| step_wake s i d n :
    tasks s !! i = Some (d, Waiting) ->
    sem s = S n ->
    step s {| sem := n; tasks := set_task i Sleeping s;
              loop_cache := loop_cache s; loop_searches := loop_searches s |}
(* the sleep is over: the search is sent *)
| step_send s i d :
    tasks s !! i = Some (d, Sleeping) ->
    step s {| sem := sem s; tasks := set_task i Searching s;
              loop_cache := loop_cache s;
              loop_searches := loop_searches s ++ [question d] |}
(* the search answers: cache, leave the semaphore, return *)
| step_answer s i d r :
    tasks s !! i = Some (d, Searching) ->
    search_tool (question d) = Some r ->
    step s {| sem := S (sem s); tasks := set_task i (Finished r) s;
              loop_cache := <[d := r]> (loop_cache s);
              loop_searches := loop_searches s |}
(* the search raises: leave the semaphore, return "Unknown" *)
| step_fail s i d :
    tasks s !! i = Some (d, Searching) ->
    search_tool (question d) = None ->
    step s {| sem := S (sem s); tasks := set_task i (Finished "Unknown") s;
              loop_cache := loop_cache s;
              loop_searches := loop_searches s |}.

(** States the loop can reach from the start of a batch. *)
Inductive reachable (descriptions : list K) (cache : gmap K string)
  : loop_state -> Prop :=
| reach_init : reachable descriptions cache (gather_init descriptions cache)
| reach_step s s' :
    reachable descriptions cache s -> step s s' ->
    reachable descriptions cache s'.

Definition finished (t : task_state) : bool :=
  match t with Finished _ => true | _ => false end.

(** [gather] returns when every task has. *)
Definition all_finished (s : loop_state) : bool :=
  forallb (fun kt => finished kt.2) (tasks s).

(** *** Notions used to reason about a batch *)

(** The cache after a batch over [descriptions]: what it held, and the
    answers that came. *)
Definition cache_after (cache : gmap K string) (descriptions : list K) (k : K)
  : option string :=
  match cache !! k with
  | Some v => Some v
  | None => if decide (k ∈ descriptions) then search_tool (question k) else None
  end.

(** What one step does to the task it moves and to the rest of the
    state. *)
Inductive moves (d : K) : task_state -> task_state -> loop_state -> loop_state -> Prop :=
| moves_hit s s' v :
    loop_cache s !! d = Some v ->
    sem s' = sem s -> loop_cache s' = loop_cache s -> loop_searches s' = loop_searches s ->
    moves d Created (Finished v) s s'
| moves_enter s s' :
    loop_cache s !! d = None ->
    sem s = S (sem s') -> loop_cache s' = loop_cache s -> loop_searches s' = loop_searches s ->
    moves d Created Sleeping s s'
| moves_park s s' :
    loop_cache s !! d = None ->
    sem s = O -> sem s' = O -> loop_cache s' = loop_cache s ->
    loop_searches s' = loop_searches s ->
    moves d Created Waiting s s'
| moves_wake s s' :
    sem s = S (sem s') -> loop_cache s' = loop_cache s -> loop_searches s' = loop_searches s ->
    moves d Waiting Sleeping s s'
| moves_send s s' :
    sem s' = sem s -> loop_cache s' = loop_cache s ->
    loop_searches s' = loop_searches s ++ [question d] ->
    moves d Sleeping Searching s s'
| moves_answer s s' r :
    search_tool (question d) = Some r ->
    sem s' = S (sem s) -> loop_cache s' = <[d := r]> (loop_cache s) ->
    loop_searches s' = loop_searches s ->
    moves d Searching (Finished r) s s'
| moves_fail s s' :
    search_tool (question d) = None ->
    sem s' = S (sem s) -> loop_cache s' = loop_cache s ->
    loop_searches s' = loop_searches s ->
    moves d Searching (Finished "Unknown") s s'.

(** One for a task inside [async with sem], zero for any other. *)
Definition holding (kt : K * task_state) : nat :=
  if holds_semaphore kt.2 then 1 else 0.

(** Steps a task can still take, and those of a whole batch. *)
Definition rank (t : task_state) : nat :=
  match t with
  | Created => 4
  | Waiting => 3
  | Sleeping => 2
  | Searching => 1
  | Finished _ => 0
  end.

Definition work_left (s : loop_state) : nat :=
  sum_list_with (fun kt => rank kt.2) (tasks s).

(** Where the task of a description stands. *)
Definition state_of (l : list (K * task_state)) (k : K) : option task_state :=
  (list_to_map l : gmap K task_state) !! k.

(** Has the search for a task's description been sent?  [cache0] is the
    cache the batch started from. *)
Definition sent (cache0 : gmap K string) (kt : K * task_state) : bool :=
  match kt.2 with
  | Searching => true
  | Finished _ => bool_decide (cache0 !! kt.1 = None)
  | _ => false
  end.

(** A task is where its description allows it to be. *)
Definition task_ok (cache0 : gmap K string) (kt : K * task_state) : Prop :=
  match kt.2 with
  | Created => True
  | Waiting | Sleeping | Searching => cache0 !! kt.1 = None
  | Finished r => r = resolve cache0 kt.1
  end.

(** The cache while a batch runs: what it held at the start and the
    answers of the tasks that have returned. *)
Definition cache_now (cache0 : gmap K string) (l : list (K * task_state)) (k : K)
  : option string :=
  match cache0 !! k with
  | Some v => Some v
  | None =>
      match state_of l k with
      | Some (Finished _) => search_tool (question k)
      | _ => None
      end
  end.

(** The invariant that ties a state of the loop to the batch it runs. *)
Record linked (ds : list K) (cache0 : gmap K string) (s : loop_state) : Prop := {
  linked_keys : (tasks s).*1 = ds;
  linked_tasks : Forall (task_ok cache0) (tasks s);
  linked_cache : forall k, loop_cache s !! k = cache_now cache0 (tasks s) k;
  linked_searches :
    loop_searches s ≡ₚ question <$> (filter (fun kt => sent cache0 kt = true) (tasks s)).*1
}.

End Enricher.

Arguments merchant_cache {K _ _}.
Arguments searches {K _ _}.
Arguments Build_lookup_state {K _ _}.
Arguments lookup_state K {_ _}.
Arguments loop_state K {_ _}.

End Enricher.

(** ** [money_rag.py]: the [MoneyRAG] session *)
Module MoneyRag.
Import PyStr Pandas Exn.

Global Instance spec_float_eq_dec : EqDecision spec_float.
Proof. solve_decision. Defined.

Global Instance cell_eq_dec : EqDecision cell.
Proof. solve_decision. Defined.

Definition spec_float_encode (f : spec_float) : bool + bool + (unit + bool * positive * Z) :=
  match f with
  | S754_zero s => inl (inl s)
  | S754_infinity s => inl (inr s)
  | S754_nan => inr (inl tt)
  | S754_finite s m e => inr (inr (s, m, e))
  end.

Definition spec_float_decode (x : bool + bool + (unit + bool * positive * Z)) : spec_float :=
  match x with
  | inl (inl s) => S754_zero s
  | inl (inr s) => S754_infinity s
  | inr (inl _) => S754_nan
  | inr (inr (s, m, e)) => S754_finite s m e
  end.

Global Instance spec_float_countable : Countable spec_float.
Proof.
  apply (inj_countable' spec_float_encode spec_float_decode).
  intros []; reflexivity.
Defined.

Definition cell_encode (c : cell) : string + Z + spec_float :=
  match c with
  | CStr s => inl (inl s)
  | CInt z => inl (inr z)
  | CFloat f => inr f
  end.

Definition cell_decode (x : string + Z + spec_float) : cell :=
  match x with
  | inl (inl s) => CStr s
  | inl (inr z) => CInt z
  | inr f => CFloat f
  end.

Global Instance cell_countable : Countable cell.
Proof.
  apply (inj_countable' cell_encode cell_decode).
  intros []; reflexivity.
Defined.

(** Library functions whose text is not part of the repository: pandas'
    parsers, Python's printing of a cell and of a date, the embedding
    service.  [None] stands for a raised exception. *)
Record Library := {
  to_datetime : column -> option (list (option Z));
  to_numeric_object : list cell -> option series;
  format_cell : cell -> string;
  embed_query : string -> list spec_float;
  embed_documents : string -> list spec_float;
  str_date : option Z -> string
}.

(** What the outside world answers while one file is ingested: the parsed
    completion of the mapping chain (a JSON object whose values are strings
    or null, or an exception), the identifiers [uuid4] draws, the search
    tool. *)
Record World := {
  completion : result (gmap string (option string));
  uuid4 : nat -> string;
  search_tool : string -> option string
}.

Record CsvFile := {
  file_path : string;
  frame : DataFrame
}.

(** One row of the table [transactions]. *)
Record Transaction := {
  id : string;
  transaction_date : option Z;
  description : cell;
  amount : cell;
  category : cell;
  source_file : string;
  enriched_info : option string
}.

Record Metadata := {
  meta_id : string;
  meta_amount : cell;
  meta_category : cell;
  meta_transaction_date : string
}.

(** One vector record of the Qdrant collection. *)
Record Point := {
  vector : list spec_float;
  page_content : string;
  metadata : Metadata
}.

Record Collection := {
  vector_size : nat;
  points : list Point
}.

(** The [MoneyRAG] instance with the stores it owns: the SQLite table
    ([None] until the first [to_sql] creates it) and the Qdrant collection
    [transactions] ([None] until it is created). *)
Record MoneyRAG := {
  llm_provider : string;
  model_name : string;
  embedding_model_name : string;
  enrichment : Enricher.lookup_state cell;
  table : option (list Transaction);
  collection : option Collection;
  vector_store : bool;
  agent : bool
}.

(** [MoneyRAG.__init__], the API key left out. *)
Definition init (provider model embedding_model : string) : MoneyRAG :=
  {| llm_provider := provider;
     model_name := model;
     embedding_model_name := embedding_model;
     enrichment := Enricher.Build_lookup_state ∅ [];
     table := None;
     collection := None;
     vector_store := false;
     agent := false |}.

(** [os.path.basename] *)
Fixpoint basename (p : string) : string :=
  match p with
  | EmptyString => EmptyString
  | String c p' =>
      if contains "/" p' then basename p'
      else if Ascii.eqb c "/" then p' else p
  end.

(** [mapping[key]] *)
Definition mapping_getitem (mapping : gmap string (option string)) (key : string)
  : result (option string) :=
  match mapping !! key with
  | Some v => ok v
  | None => raise (KeyError (Some key))
  end.

(** [mapping.get(key)], where an absent key gives [None] as a null does *)
Definition mapping_get (mapping : gmap string (option string)) (key : string)
  : option string :=
  default None (mapping !! key).

(** Truth value of a [str] or [None]. *)
Definition truthy (v : option string) : bool :=
  match v with
  | None | Some EmptyString => false
  | Some _ => true
  end.

(** [df[key]] *)
Definition df_getitem (df : DataFrame) (key : option string) : result column :=
  match key with
  | None => raise (KeyError None)
  | Some k =>
      match df_columns df !! k with
      | Some c => ok c
      | None => raise (KeyError key)
      end
  end.

Definition pd_to_datetime (lib : Library) (c : column) : result (list (option Z)) :=
  match to_datetime lib c with
  | Some l => ok l
  | None => raise (ConversionError "to_datetime")
  end.

Definition pd_to_numeric (lib : Library) (c : column) : result series :=
  match c with
  | Int64Col l => ok (Int64Series l)
  | Float64Col l => ok (Float64Series l)
  | ObjectCol l =>
      match to_numeric_object lib l with
      | Some s => ok s
      | None => raise (ConversionError "to_numeric")
      end
  end.

(** [standard_df]: every column on the index [0 .. len(df) - 1]. *)
Record StandardFrame := {
  col_id : list string;
  col_transaction_date : list (option Z);
  col_description : list cell;
  col_amount : list cell;
  col_category : list cell;
  col_source_file : list string;
  col_enriched_info : list (option string)
}.

(** The rows of a frame, position by position. *)
Definition frame_row (sdf : StandardFrame) (i : nat) : Transaction :=
  {| id := default "" (col_id sdf !! i);
     transaction_date := default None (col_transaction_date sdf !! i);
     description := cell_at (col_description sdf) i;
     amount := cell_at (col_amount sdf) i;
     category := cell_at (col_category sdf) i;
     source_file := default "" (col_source_file sdf !! i);
     enriched_info := default None (col_enriched_info sdf !! i) |}.

Definition frame_rows (sdf : StandardFrame) : list Transaction :=
  frame_row sdf <$> seq 0 (length (col_id sdf)).

(** [to_sql("transactions", conn, if_exists="append", index=False)] *)
Definition to_sql (sdf : StandardFrame) (table : option (list Transaction))
  : option (list Transaction) :=
  Some (default [] table ++ frame_rows sdf).

Definition _ingest_csv (lib : Library) (w : World) (file : CsvFile) (self : MoneyRAG)
  : result MoneyRAG :=
  let df := frame file in
  let index := seq 0 (df_len df) in
  do mapping <- completion w;
  let ids := uuid4 w <$> index in
  do date_col <- mapping_getitem mapping "date_col";
  do date_column <- df_getitem df date_col;
  do dates <- pd_to_datetime lib date_column;
  do desc_col <- mapping_getitem mapping "desc_col";
  do desc_column <- df_getitem df desc_col;
  let descriptions := cell_at (column_cells desc_column) <$> index in
  do amount_col <- mapping_getitem mapping "amount_col";
  do amount_column <- df_getitem df amount_col;
  do raw_amounts <- pd_to_numeric lib amount_column;
  do sign_convention <- mapping_getitem mapping "sign_convention";
  let amounts :=
    if decide (sign_convention = Some "spending_is_negative")
    then series_mul_neg1 raw_amounts else raw_amounts in
  do categories <-
    (if truthy (mapping_get mapping "category_col")
     then do category_column <- df_getitem df (mapping_get mapping "category_col");
          ok (cell_at (column_cells category_column) <$> index)
     else ok ((fun _ => CStr "Uncategorized") <$> index));
  let source := basename (file_path file) in
  (* --- Async Enrichment Step --- *)
  let unique_descriptions := unique descriptions in
  let '(enrichment_results, enrichment') :=
    Enricher.gather (format_cell lib) (search_tool w) unique_descriptions (enrichment self) in
  let desc_map := Enricher.dict_zip unique_descriptions enrichment_results in
  let standard_df :=
    {| col_id := ids;
       col_transaction_date := (fun i => default None (dates !! i)) <$> index;
       col_description := descriptions;
       col_amount := cell_at (series_cells amounts) <$> index;
       col_category := categories;
       col_source_file := (fun _ => source) <$> index;
       col_enriched_info := fillna "" (series_map desc_map descriptions) |} in
  ok {| llm_provider := llm_provider self;
        model_name := model_name self;
        embedding_model_name := embedding_model_name self;
        enrichment := enrichment';
        table := to_sql standard_df (table self);
        collection := collection self;
        vector_store := vector_store self;
        agent := agent self |}.

(** The text embedded for one row of the table. *)
Definition row_text (lib : Library) (row : Transaction) : string :=
  let enriched := enriched_info row in
  let base_text :=
    format_cell lib (description row) +:+ " (" +:+ format_cell lib (category row) +:+ ")" in
  if truthy enriched
     && negb (bool_decide (enriched = Some "Unknown"))
     && negb (bool_decide (enriched = Some ""))
  then base_text +:+ " - " +:+ default "" enriched
  else base_text.

Definition row_metadata (lib : Library) (row : Transaction) : Metadata :=
  {| meta_id := id row;
     meta_amount := amount row;
     meta_category := category row;
     meta_transaction_date := str_date lib (transaction_date row) |}.

(** [client.recreate_collection]: whatever the collection held is dropped. *)
Definition recreate_collection (dim : nat) (old : option Collection) : Collection :=
  {| vector_size := dim; points := [] |}.

(** [vs.add_texts]: one new point per text, after the points already
    there. *)
Definition add_texts (lib : Library) (texts : list string) (metadatas : list Metadata)
    (c : Collection) : Collection :=
  {| vector_size := vector_size c;
     points := points c ++
               ((fun tm => {| vector := embed_documents lib tm.1;
                              page_content := tm.1;
                              metadata := tm.2 |}) <$> zip texts metadatas) |}.

Definition _sync_to_qdrant (lib : Library) (self : MoneyRAG)
  : result MoneyRAG :=
  match table self with
  | None => raise DatabaseError
  | Some df =>
      (* Check for empty dataframe *)
      if bool_decide (df = [])
      then raise (ValueError "No transactions found in database. Please ingest CSV files first.")
      else
        (* Dynamically detect embedding dimension *)
        let sample_embedding := embed_query lib "test" in
        let embedding_dim := length sample_embedding in
        let created := recreate_collection embedding_dim (collection self) in
        let texts := row_text lib <$> df in
        let metadatas := row_metadata lib <$> df in
        ok {| llm_provider := llm_provider self;
              model_name := model_name self;
              embedding_model_name := embedding_model_name self;
              enrichment := enrichment self;
              table := table self;
              collection := Some (add_texts lib texts metadatas created);
              vector_store := true;
              agent := agent self |}
  end.

Definition _init_agent (self : MoneyRAG) : MoneyRAG :=
  {| llm_provider := llm_provider self;
     model_name := model_name self;
     embedding_model_name := embedding_model_name self;
     enrichment := enrichment self;
     table := table self;
     collection := collection self;
     vector_store := vector_store self;
     agent := true |}.

(** The loop of [setup_session] over the paths: the session as the loop
    leaves it, and the exception that ended it, if one did. *)
Fixpoint ingest_loop (lib : Library) (csv_paths : list (World * CsvFile)) (self : MoneyRAG)
  : MoneyRAG * option exn :=
  match csv_paths with
  | [] => (self, None)
  | (w, path) :: rest =>
      match _ingest_csv lib w path self with
      | inl e => (self, Some e)
      | inr self' => ingest_loop lib rest self'
      end
  end.

Definition setup_session (lib : Library) (csv_paths : list (World * CsvFile))
    (self : MoneyRAG) : MoneyRAG * option exn :=
  match ingest_loop lib csv_paths self with
  | (self1, Some e) => (self1, Some e)
  | (self1, None) =>
      match _sync_to_qdrant lib self1 with
      | inl e => (self1, Some e)
      | inr self2 => (_init_agent self2, None)
      end
  end.

(** *** [chat]: the answer taken from the last message *)

(** A value found in a content block. *)
Inductive pyval :=
| PyString (s : string)
| PyNone
| PyInt (z : Z).

Global Instance pyval_eq_dec : EqDecision pyval.
Proof. solve_decision. Defined.

(** A content block: a dict, or something that is no dict (a bare
    string). *)
Inductive block :=
| BlockDict (d : gmap string pyval)
| BlockStr (s : string).

(** [result["messages"][-1].content] *)
Inductive content :=
| ContentStr (s : string)
| ContentList (blocks : list block).

Definition newline : string := String (ascii_of_nat 10) EmptyString.

(** [sep.join(parts)], which raises [TypeError] on an item that is no
    [str]. *)
Fixpoint join_values (parts : list pyval) : option (list string) :=
  match parts with
  | [] => Some []
  | PyString s :: rest => cons s <$> join_values rest
  | _ :: rest => None
  end.

Definition is_text_block (b : block) : bool :=
  match b with
  | BlockDict d => bool_decide (d !! "type" = Some (PyString "text"))
  | BlockStr _ => false
  end.

(** The loop over the blocks that fills [text_parts]. *)
Fixpoint text_parts (blocks : list block) : list pyval :=
  match blocks with
  | [] => []
  | b :: rest =>
      match b with
      | BlockDict d =>
          if bool_decide (d !! "type" = Some (PyString "text"))
          then default (PyString "") (d !! "text") :: text_parts rest
          else text_parts rest
      | BlockStr _ => text_parts rest
      end
  end.

(** What [chat] returns for the content of the agent's last message. *)
Definition chat (final_content : content) : result string :=
  match final_content with
  | ContentList blocks =>
      match join_values (text_parts blocks) with
      | Some parts => ok (join newline parts)
      | None => raise TypeError
      end
  | ContentStr s => ok s
  end.

(** *** Notions used to state what the functions above do *)

(** What a text block contributes: its "text", or the empty string when
    it has no such key. *)
Definition block_text (b : block) : string :=
  match b with
  | BlockDict d =>
      match d !! "text" with
      | Some (PyString s) => s
      | _ => ""
      end
  | BlockStr _ => ""
  end.

(** The "text" of a block, where it has one, is a [str]. *)
Definition text_is_str (b : block) : Prop :=
  match b with
  | BlockDict d => d !! "text" = None \/ exists s, d !! "text" = Some (PyString s)
  | BlockStr _ => True
  end.

(** What a successful [_ingest_csv] went through: the raw amounts, the
    sign convention of the mapping and the rows it appended. *)
Record ingested (lib : Library) (w : World) (file : CsvFile) (self self' : MoneyRAG)
    (raw_amounts : series) (sign_convention : option string) (new : list Transaction)
  : Prop := {
  ing_mapping : exists mapping amount_col amount_column,
      completion w = inr mapping
      /\ mapping !! "amount_col" = Some amount_col
      /\ df_getitem (frame file) amount_col = inr amount_column
      /\ pd_to_numeric lib amount_column = inr raw_amounts
      /\ mapping !! "sign_convention" = Some sign_convention;
  ing_table : table self' = Some (default [] (table self) ++ new);
  ing_length : length new = df_len (frame file);
  ing_amount : forall i row, new !! i = Some row ->
      amount row = cell_at (series_cells
                      (if decide (sign_convention = Some "spending_is_negative")
                       then series_mul_neg1 raw_amounts else raw_amounts)) i;
  ing_enriched : forall row, row ∈ new ->
      enriched_info row
      = Some (default "" ((Enricher.enrich_batch (format_cell lib) (search_tool w)
                             (description <$> new) (enrichment self)).1
                          !! description row));
  ing_enrichment :
      enrichment self'
      = (Enricher.enrich_batch (format_cell lib) (search_tool w)
           (description <$> new) (enrichment self)).2;
  ing_rest : collection self' = collection self /\ vector_store self' = vector_store self
             /\ agent self' = agent self
}.

End MoneyRag.

(** ** [utils/data_ingestion.py]: the second ingestion path *)
Module DataIngestion.
Import PyStr Pandas Exn MoneyRag.

(** One row as [ingest_csv] writes it: no [id], no [enriched_info]. *)
Record Row := {
  transaction_date : option Z;
  description : cell;
  amount : cell;
  category : cell;
  source_file : string
}.

Definition ingest_csv (lib : Library) (completion : result (gmap string (option string)))
    (file_path : string) (df : DataFrame) (table : option (list Row))
  : result (option (list Row)) :=
  do mapping <- completion;
  do date_col <- mapping_getitem mapping "date_col";
  do date_column <- df_getitem df date_col;
  do dates <- pd_to_datetime lib date_column;
  let index := seq 0 (length dates) in
  do desc_col <- mapping_getitem mapping "desc_col";
  do desc_column <- df_getitem df desc_col;
  let descriptions := cell_at (column_cells desc_column) <$> index in
  (* --- Normalization Logic --- *)
  do amount_col <- mapping_getitem mapping "amount_col";
  do amount_column <- df_getitem df amount_col;
  do raw_amounts <- pd_to_numeric lib amount_column;
  let amounts :=
    if decide (mapping_get mapping "sign_convention" = Some "payment_is_positive")
    then series_mul_neg1 raw_amounts   (* flip so that payments become negative *)
    else raw_amounts in
  do categories <-
    (if truthy (mapping_get mapping "category_col")
     then do category_col <- mapping_getitem mapping "category_col";
          do category_column <- df_getitem df category_col;
          ok (cell_at (column_cells category_column) <$> index)
     else ok ((fun _ => CStr "Uncategorized") <$> index));
  let rows :=
    (fun i => {| transaction_date := default None (dates !! i);
                 description := cell_at descriptions i;
                 amount := cell_at (series_cells amounts) i;
                 category := cell_at categories i;
                 source_file := file_path |}) <$> index in
  ok (Some (default [] table ++ rows)).

End DataIngestion.

(** ** A small session used in the examples *)
Module Examples.
Import PyStr Pandas Exn MoneyRag.

Definition demo_library : Library :=
  {| to_datetime := fun c => Some ((fun _ => Some 0) <$> column_cells c);
     to_numeric_object := fun _ => None;
     format_cell := fun c => match c with CStr s => s | _ => "?" end;
     embed_query := fun _ => [S754_zero false; S754_zero false];
     embed_documents := fun _ => [S754_zero false; S754_zero false];
     str_date := fun _ => "2024-01-05 00:00:00" |}.

Definition demo_frame : DataFrame :=
  {| df_len := 3;
     df_columns :=
       <["Date" := ObjectCol [CStr "01/05"; CStr "01/06"; CStr "01/07"]]>
       (<["Desc" := ObjectCol [CStr "Starbucks"; CStr "Starbucks"; CStr "Walmart"]]>
       (<["Amt" := Int64Col [-42; 7; 0]]> ∅)) |}.


Definition demo_mapping (convention : string) : gmap string (option string) :=
  <["date_col" := Some "Date"]>
  (<["desc_col" := Some "Desc"]>
  (<["amount_col" := Some "Amt"]>
  (<["category_col" := None]>
  (<["sign_convention" := Some convention]> ∅)))).

(** The search for Walmart raises, every other one answers. *)
Definition demo_search (q : string) : option string :=
  if String.eqb q "What type of business / store is 'Walmart'?" then None
  else Some "Coffee shop chain".

Definition demo_world : World :=
  {| completion := ok (demo_mapping "spending_is_negative");
     uuid4 := fun n => "6f1c";
     search_tool := demo_search |}.

(** The completion of the mapping chain is no JSON. *)
Definition failing_world : World :=
  {| completion := raise OutputParserException;
     uuid4 := fun n => "6f1c";
     search_tool := demo_search |}.

Definition demo_file : CsvFile :=
  {| file_path := "/tmp/session/chase.csv"; frame := demo_frame |}.


Definition demo_session : MoneyRAG := init "google" "gemini-2.5-flash" "text-embedding-004".

(** The session after the demo file, and after the empty file. *)
Definition demo_ingested : MoneyRAG :=
  match _ingest_csv demo_library demo_world demo_file demo_session with
  | inr self' => self'
  | inl _ => demo_session
  end.


Definition text_block (s : string) : block :=
  BlockDict (<["type" := PyString "text"]> (<["text" := PyString s]> ∅)).

(** A database with one table of two columns. *)
Definition demo_catalog : McpSqlServer.catalog :=
  {| McpSqlServer.master := Some ["transactions"];
     McpSqlServer.table_info := fun statement =>
       if String.eqb statement "PRAGMA table_info(transactions);"
       then Some [ {| McpSqlServer.col_id := 0; McpSqlServer.col_name := "id";
                      McpSqlServer.col_type := "TEXT"; McpSqlServer.not_null := 0;
                      McpSqlServer.default_val := None; McpSqlServer.pk := 0 |};
                   {| McpSqlServer.col_id := 1; McpSqlServer.col_name := "amount";
                      McpSqlServer.col_type := "REAL"; McpSqlServer.not_null := 0;
                      McpSqlServer.default_val := None; McpSqlServer.pk := 0 |} ]
       else None |}.

(** A batch of one description that is not cached and whose search
    raises: the state [gather] starts from and the state after the task has
    entered the semaphore, sent its search and returned. *)
Definition uncached_start : Enricher.loop_state string :=
  Enricher.gather_init ["Walmart"] ∅.

Definition uncached_end : Enricher.loop_state string :=
  {| Enricher.sem := 5;
     Enricher.tasks := [("Walmart", Enricher.Finished "Unknown")];
     Enricher.loop_cache := ∅;
     Enricher.loop_searches := ["What type of business / store is 'Walmart'?"] |}.

(** A batch of one cached description, after its only step. *)
Definition cached_end : Enricher.loop_state string :=
  {| Enricher.sem := 5;
     Enricher.tasks := [("Starbucks", Enricher.Finished "Coffee shop chain")];
     Enricher.loop_cache := {["Starbucks" := "Coffee shop chain"]};
     Enricher.loop_searches := [] |}.

End Examples.

(** * Properties *)

(** ** Strings *)
Module PyStrFacts.
Import PyStr.

Lemma is_space_upper_char (c : ascii) : is_space (upper_char c) = is_space c.
Proof. destruct c as [[] [] [] [] [] [] [] []]; reflexivity. Qed.

(** [startswith] decides being a prefix. *)
Lemma startswith_spec (p s : string) :
  startswith p s = true <-> exists rest, s = p +:+ rest.
Proof.
  revert s. induction p as [|a p IH]; intros s; simpl.
  - split; [intros _; by exists s | done].
  - destruct s as [|b s].
    + split; [done | intros [rest Hr]; discriminate].
    + destruct (Ascii.eqb_spec a b) as [->|Hne].
      * rewrite IH. split; intros [rest Hr]; exists rest; [by rewrite Hr | by injection Hr].
      * split; [done | intros [rest Hr]; injection Hr; intros; by subst].
Qed.

(** [contains] decides being a substring. *)
Lemma contains_spec (w s : string) :
  contains w s = true <-> exists pre post, s = pre +:+ w +:+ post.
Proof.
  induction s as [|c s IH]; simpl.
  - rewrite orb_false_r, startswith_spec. split.
    + intros [rest Hr]. by exists "", rest.
    + intros ([|x pre] & post & Hp); [by exists post | discriminate].
  - rewrite orb_true_iff, IH, startswith_spec. split.
    + intros [[rest Hr] | (pre & post & Hp)].
      * by exists "", rest.
      * exists (String c pre), post. simpl. by rewrite Hp.
    + intros ([|x pre] & post & Hp).
      * left. by exists post.
      * right. injection Hp as -> Hp. by exists pre, post.
Qed.

Lemma upper_lstrip (s : string) : upper (lstrip s) = lstrip (upper s).
Proof.
  induction s as [|c s IH]; simpl; [done|].
  rewrite is_space_upper_char. by destruct (is_space c).
Qed.

Lemma upper_rstrip (s : string) : upper (rstrip s) = rstrip (upper s).
Proof.
  induction s as [|c s IH]; simpl; [done|].
  rewrite <- IH, is_space_upper_char.
  destruct (rstrip s); simpl; [by destruct (is_space c) | done].
Qed.

Lemma upper_strip (s : string) : upper (strip s) = strip (upper s).
Proof. unfold strip. by rewrite upper_rstrip, upper_lstrip. Qed.

(** A word that starts with a character that is no white space begins
    nowhere in the white space [lstrip] removes. *)
Lemma contains_lstrip (c : ascii) (w s : string) :
  is_space c = false ->
  contains (String c w) (lstrip s) = contains (String c w) s.
Proof.
  intros Hc. induction s as [|x s IH]; [done|].
  cbn [lstrip]. destruct (is_space x) eqn:Hx; [|done].
  rewrite IH. cbn [contains startswith].
  destruct (Ascii.eqb_spec c x) as [->|]; [congruence | done].
Qed.

Lemma startswith_rstrip (w s : string) :
  no_space w = true -> startswith w (rstrip s) = startswith w s.
Proof.
  revert w. induction s as [|x s IH]; intros w Hw; [done|].
  destruct w as [|c w]; [done|].
  simpl in Hw. apply andb_true_iff in Hw as [Hc Hw]. apply negb_true_iff in Hc.
  cbn [rstrip]. specialize (IH w Hw).
  destruct (rstrip s) as [|y r] eqn:Hr.
  - destruct (is_space x) eqn:Hx; cbn [startswith].
    + destruct (Ascii.eqb_spec c x) as [->|]; [congruence | done].
    + destruct (Ascii.eqb c x); [|done]. rewrite <- IH. by destruct w.
  - cbn [startswith]. by rewrite IH.
Qed.

(** A word without white space lies nowhere in the white space [rstrip]
    removes. *)
Lemma contains_rstrip (c : ascii) (w s : string) :
  no_space (String c w) = true ->
  contains (String c w) (rstrip s) = contains (String c w) s.
Proof.
  intros Hw. induction s as [|x s IH]; [done|].
  change (contains (String c w) (String x s))
    with (startswith (String c w) (String x s) || contains (String c w) s).
  rewrite <- IH, <- (startswith_rstrip _ (String x s) Hw).
  cbn [rstrip]. destruct (rstrip s) as [|y r] eqn:Hr.
  - destruct (is_space x); [by rewrite orb_false_r | cbn; by rewrite !orb_false_r].
  - done.
Qed.

Lemma contains_strip (c : ascii) (w s : string) :
  no_space (String c w) = true ->
  contains (String c w) (strip s) = contains (String c w) s.
Proof.
  intros Hw. unfold strip. rewrite contains_rstrip by done.
  apply contains_lstrip. simpl in Hw. apply andb_true_iff in Hw as [Hc _].
  by apply negb_true_iff.
Qed.

Lemma append_cons (c : ascii) (s t : string) : String c s +:+ t = String c (s +:+ t).
Proof. reflexivity. Qed.

Lemma append_assoc (s t u : string) : (s +:+ t) +:+ u = s +:+ t +:+ u.
Proof. induction s as [|c s IH]; [done|]. by rewrite !append_cons, IH. Qed.

Lemma append_nil_r (s : string) : s +:+ "" = s.
Proof. induction s as [|c s IH]; [done|]. by rewrite append_cons, IH. Qed.

Lemma upper_char_idemp (c : ascii) : upper_char (upper_char c) = upper_char c.
Proof. destruct c as [[] [] [] [] [] [] [] []]; reflexivity. Qed.

Lemma upper_idemp (s : string) : upper (upper s) = upper s.
Proof. induction s as [|c s IH]; [done|]. cbn [upper]. by rewrite upper_char_idemp, IH. Qed.

Lemma lstrip_all_space (pad : string) : all_space pad = true -> lstrip pad = "".
Proof.
  induction pad as [|c pad IH]; [done|]. cbn [all_space lstrip].
  intros [Hc Hp]%andb_true_iff. rewrite Hc. by apply IH.
Qed.

Lemma rstrip_all_space (pad : string) : all_space pad = true -> rstrip pad = "".
Proof.
  induction pad as [|c pad IH]; [done|]. cbn [all_space rstrip].
  intros [Hc Hp]%andb_true_iff. by rewrite IH, Hc.
Qed.

Lemma lstrip_app_space (pad s : string) :
  all_space pad = true -> lstrip (pad +:+ s) = lstrip s.
Proof.
  induction pad as [|c pad IH]; [done|]. cbn [all_space].
  intros [Hc Hp]%andb_true_iff. rewrite append_cons. cbn [lstrip]. rewrite Hc. by apply IH.
Qed.

Lemma rstrip_app_space (s pad : string) :
  all_space pad = true -> rstrip (s +:+ pad) = rstrip s.
Proof.
  intros Hp. induction s as [|c s IH]; [by apply rstrip_all_space|].
  rewrite append_cons. cbn [rstrip]. by rewrite IH.
Qed.

Lemma strip_app_space_r (s pad : string) :
  all_space pad = true -> strip (s +:+ pad) = strip s.
Proof.
  intros Hp. unfold strip. induction s as [|c s IH].
  - change ("" +:+ pad) with pad. by rewrite lstrip_all_space.
  - rewrite append_cons. cbn [lstrip]. destruct (is_space c); [done|].
    rewrite <- append_cons. by apply rstrip_app_space.
Qed.

(** White space around a string does not change what [strip] gives. *)
Lemma strip_padding (pad1 s pad2 : string) :
  all_space pad1 = true -> all_space pad2 = true ->
  strip (pad1 +:+ s +:+ pad2) = strip s.
Proof.
  intros H1 H2. unfold strip. rewrite lstrip_app_space by done.
  by apply strip_app_space_r.
Qed.

Lemma join_elem (sep : string) (parts : list string) (x : string) :
  x ∈ parts -> exists pre post, join sep parts = pre +:+ x +:+ post.
Proof.
  induction parts as [|p rest IH]; [by intros ?%elem_of_nil|].
  intros [->|Hx]%elem_of_cons.
  - destruct rest as [|q rest].
    + exists "", "". by rewrite append_nil_r.
    + by exists "", (sep +:+ join sep (q :: rest)).
  - destruct (IH Hx) as (pre & post & Hj).
    destruct rest as [|q rest]; [by apply elem_of_nil in Hx|].
    exists (p +:+ sep +:+ pre), post.
    change (join sep (p :: q :: rest)) with (p +:+ sep +:+ join sep (q :: rest)).
    by rewrite Hj, !append_assoc.
Qed.
End PyStrFacts.

(** ** The structured-query tool *)
Module McpSqlServerFacts.
Import PyStr PyStrFacts McpSqlServer.

Section Guard.
Variable sqlite : string -> sqlite_outcome.

Lemma forbidden_no_space (w : string) :
  In w forbidden -> exists c w', w = String c w' /\ no_space (String c w') = true.
Proof.
  unfold forbidden. simpl.
  intros H; repeat (destruct H as [<- | H]; [eexists _, _; split; [reflexivity | reflexivity] |]).
  destruct H.
Qed.

(** A query that reaches SQLite passed both tests. *)
Lemma query_database_touches (query : string) :
  trace (query_database sqlite query) <> [] ->
  (startswith "SELECT" (upper (strip query)) = true
   \/ startswith "PRAGMA" (upper (strip query)) = true)
  /\ existsb (fun w => contains w (upper (strip query))) forbidden = false.
Proof.
  unfold query_database.
  destruct (startswith "SELECT" (upper (strip query))) eqn:Hs;
    destruct (startswith "PRAGMA" (upper (strip query))) eqn:Hp;
    cbn [negb andb];
    try (intros H; by destruct H);
    (destruct (existsb _ forbidden) eqn:Hf; [intros H; by destruct H |]);
    intros _; (split; [|done]); auto.
Qed.

Lemma query_database_rejects (query : string) :
  existsb (fun w => contains w (upper (strip query))) forbidden = true ->
  trace (query_database sqlite query) = [] /\
  exists msg, outcome (query_database sqlite query) = Returned ("Error: " +:+ msg).
Proof.
  intros Hf. unfold query_database. rewrite Hf.
  destruct (negb _ && negb _); (split; [done|]); eexists; reflexivity.
Qed.

(** A query that passes both tests is handed to SQLite as it was given. *)
Lemma query_database_accepts (query : string) :
  (startswith "SELECT" (upper (strip query)) = true
   \/ startswith "PRAGMA" (upper (strip query)) = true) ->
  existsb (fun w => contains w (upper (strip query))) forbidden = false ->
  trace (query_database sqlite query) = [Connect]
  \/ trace (query_database sqlite query) = [Connect; Execute query].
Proof.
  intros Hstart Hf. unfold query_database. rewrite Hf.
  assert (negb (startswith "SELECT" (upper (strip query)))
          && negb (startswith "PRAGMA" (upper (strip query))) = false) as ->.
  { destruct Hstart as [-> | ->]; [done | apply andb_false_r]. }
  destruct (sqlite query) as [msg | msg | | [|row rows]]; cbn; auto.
Qed.

(** C2: the structured-query tool hands a query to SQLite only if the
    query, stripped and upper-cased, starts with SELECT or PRAGMA; and a
    query whose upper-cased text contains INSERT, UPDATE, DELETE, DROP,
    ALTER, CREATE, REPLACE or TRUNCATE anywhere is answered with an error
    string: SQLite is not touched and nothing is raised. *)
Theorem query_database_read_only (query : string) :
  (trace (query_database sqlite query) <> [] ->
   exists rest, upper (strip query) = "SELECT" +:+ rest
                \/ upper (strip query) = "PRAGMA" +:+ rest)
  /\ (forall w pre post,
        In w forbidden -> upper query = pre +:+ w +:+ post ->
        trace (query_database sqlite query) = [] /\
        exists msg, outcome (query_database sqlite query) = Returned ("Error: " +:+ msg)).
Proof.
  split.
  - intros Ht. apply query_database_touches in Ht as [[Hs | Hp] _].
    + apply startswith_spec in Hs as [rest Hr]. exists rest. by left.
    + apply startswith_spec in Hp as [rest Hr]. exists rest. by right.
  - intros w pre post Hw Hq. apply query_database_rejects.
    apply existsb_exists. exists w. split; [done|].
    destruct (forbidden_no_space w Hw) as (c & w' & -> & Hns).
    rewrite upper_strip, contains_strip by done.
    apply contains_spec. by exists pre, post.
Qed.
End Guard.

(** The two queries of the specification: the DROP is refused, the SELECT
    is run. *)
Lemma drop_table_is_refused :
  query_database (fun _ => Fetched []) "DROP TABLE transactions;"
  = {| outcome := Returned "Error: Only SELECT and PRAGMA queries are allowed"; trace := [] |}.
Proof. reflexivity. Qed.

Lemma select_is_run :
  query_database (fun _ => Fetched ["('6f1c', 42)"]) "SELECT * FROM transactions LIMIT 1;"
  = {| outcome := Returned "[('6f1c', 42)]";
       trace := [Connect; Execute "SELECT * FROM transactions LIMIT 1;"] |}.
Proof. reflexivity. Qed.

Lemma query_database_read_only_witness :
  trace (query_database (fun _ => Fetched ["(1,)"]) "select 1; Drop table transactions") = []
  /\ exists msg,
       outcome (query_database (fun _ => Fetched ["(1,)"]) "select 1; Drop table transactions")
       = Returned ("Error: " +:+ msg).
Proof.
  apply (proj2 (query_database_read_only (fun _ => Fetched ["(1,)"])
                  "select 1; Drop table transactions")
           "DROP" "SELECT 1; " " TABLE TRANSACTIONS").
  - simpl; tauto.
  - reflexivity.
Defined.

Section Answers.
Variable sqlite : string -> sqlite_outcome.

Lemma forbidden_contains_strip (query w : string) :
  In w forbidden ->
  contains w (upper (strip query)) = contains w (upper query).
Proof.
  intros Hw. destruct (forbidden_no_space w Hw) as (c & w' & -> & Hns).
  by rewrite upper_strip, contains_strip.
Qed.

(** X1: [query_database] reaches SQLite exactly when the query, stripped
    and upper-cased, starts with SELECT or PRAGMA and its upper-cased text
    contains none of the eight forbidden words; and the statement it then
    executes is the query as the caller gave it, neither stripped nor
    upper-cased. *)
Theorem query_database_reaches_sqlite (query : string) :
  (trace (query_database sqlite query) <> [] <->
     (exists rest, upper (strip query) = "SELECT" +:+ rest
                   \/ upper (strip query) = "PRAGMA" +:+ rest)
     /\ (forall w, In w forbidden -> ~ exists pre post, upper query = pre +:+ w +:+ post))
  /\ (forall statement,
        In (Execute statement) (trace (query_database sqlite query)) -> statement = query).
Proof.
  split; [split|].
  - intros Ht. apply query_database_touches in Ht as [Hstart Hf]. split.
    + destruct Hstart as [Hs | Hp].
      * apply startswith_spec in Hs as [rest Hr]. exists rest. by left.
      * apply startswith_spec in Hp as [rest Hr]. exists rest. by right.
    + intros w Hw Hin. apply contains_spec in Hin.
      rewrite <- forbidden_contains_strip in Hin by done.
      assert (existsb (fun w => contains w (upper (strip query))) forbidden = true) as Hex.
      { apply existsb_exists. by exists w. }
      congruence.
  - intros [[rest Hstart] Hno].
    assert (Hf : existsb (fun w => contains w (upper (strip query))) forbidden = false).
    { apply not_true_iff_false. intros (w & Hw & Hc)%existsb_exists.
      rewrite forbidden_contains_strip in Hc by done.
      apply (Hno w Hw). by apply contains_spec. }
    assert (Hs : startswith "SELECT" (upper (strip query)) = true
                 \/ startswith "PRAGMA" (upper (strip query)) = true).
    { destruct Hstart as [Hr | Hr]; [left | right]; apply startswith_spec; by exists rest. }
    destruct (query_database_accepts sqlite query Hs Hf) as [-> | ->]; done.
  - intros statement. unfold query_database.
    destruct (negb _ && negb _); [by intros []|].
    destruct (existsb _ forbidden); [by intros []|].
    destruct (sqlite query) as [msg | msg | | [|row rows]]; cbn [trace];
      intros Hin; repeat (destruct Hin as [Hin | Hin]; [congruence|]); by destruct Hin.
Qed.

Lemma str_results_bracket (rows : list string) : exists rest, str_results rows = String "[" rest.
Proof. unfold str_results. eexists. apply append_cons. Qed.

(** X2: the four kinds of answer of [query_database], and when each is
    given.  It raises exactly when the statement was run and SQLite raised
    something that is no [sqlite3.Error].  It answers "No results found"
    exactly when the statement was run and fetched no row.  It answers a
    string that starts with "Error: " exactly when the guard refused the
    query or SQLite raised a [sqlite3.Error].  It answers a string that
    starts with "[" exactly when rows were fetched, and the string is then
    [str] of the rows.  So the caller can tell the four apart. *)
Theorem query_database_answers (query : string) :
  (outcome (query_database sqlite query) = Raised
   <-> trace (query_database sqlite query) <> [] /\ sqlite query = OtherException)
  /\ (outcome (query_database sqlite query) = Returned "No results found"
      <-> trace (query_database sqlite query) <> [] /\ sqlite query = Fetched [])
  /\ ((exists msg, outcome (query_database sqlite query) = Returned ("Error: " +:+ msg))
      <-> trace (query_database sqlite query) = []
          \/ exists msg, sqlite query = ConnectError msg \/ sqlite query = ExecuteError msg)
  /\ ((exists rest, outcome (query_database sqlite query) = Returned (String "[" rest))
      <-> trace (query_database sqlite query) <> []
          /\ exists row rows, sqlite query = Fetched (row :: rows)
                              /\ outcome (query_database sqlite query)
                                 = Returned (str_results (row :: rows))).
Proof.
  unfold query_database.
  destruct (negb _ && negb _); [|destruct (existsb _ forbidden);
    [|destruct (sqlite query) as [msg | msg | | [|row rows]] eqn:Hq]];
    cbn [outcome trace]; (split; [|split; [|split]]); split; intros Hx;
    try done;
    try (by destruct Hx as [? ?]);
    try (by destruct Hx as [? [=]]);
    try (by destruct Hx as [[=] | (? & [[=] | [=]])]);
    try (by destruct Hx as (_ & ? & ? & ? & _));
    try (by left);
    try (by eexists);
    try (right; eexists; by left);
    try (right; eexists; by right).
  split; [done|]. by exists row, rows.
Qed.

(** X3: the guard of [query_database] sees the query without the white
    space around it and with its letters upper-cased: a query padded with
    white space and written in another letter case is refused exactly when
    the plain query is, and then with the same message. *)
Theorem query_database_guard_padding_case (pad1 pad2 query query' : string) :
  all_space pad1 = true -> all_space pad2 = true ->
  upper query' = upper query ->
  (trace (query_database sqlite (pad1 +:+ query' +:+ pad2)) = []
   <-> trace (query_database sqlite query) = [])
  /\ (trace (query_database sqlite query) = [] ->
      outcome (query_database sqlite (pad1 +:+ query' +:+ pad2))
      = outcome (query_database sqlite query)).
Proof.
  intros H1 H2 Hup.
  assert (Hq : upper (strip (pad1 +:+ query' +:+ pad2)) = upper (strip query)).
  { rewrite strip_padding by done. by rewrite !upper_strip, Hup. }
  unfold query_database. rewrite Hq.
  destruct (negb _ && negb _); [done|].
  destruct (existsb _ forbidden); [done|].
  split.
  - destruct (sqlite (pad1 +:+ query' +:+ pad2)) as [msg | msg | | [|row rows]];
      destruct (sqlite query) as [msg0 | msg0 | | [|row0 rows0]]; done.
  - destruct (sqlite query) as [msg0 | msg0 | | [|row0 rows0]]; done.
Qed.
End Answers.

Lemma query_database_guard_padding_case_witness :
  trace (query_database (fun _ => Fetched ["(1,)"]) ("  " +:+ "select 1; drop table t" +:+ " ")) = []
  <-> trace (query_database (fun _ => Fetched ["(1,)"]) "SELECT 1; DROP TABLE T") = [].
Proof.
  apply (query_database_guard_padding_case (fun _ => Fetched ["(1,)"])
           "  " " " "SELECT 1; DROP TABLE T" "select 1; drop table t").
  - reflexivity.
  - reflexivity.
  - reflexivity.
Defined.

Lemma schema_lines_None (db : catalog) (tables : list string) :
  schema_lines db tables = None
  <-> exists t, t ∈ tables /\ table_info db (table_info_statement t) = None.
Proof.
  induction tables as [|t tables IH]; cbn [schema_lines].
  - split; [done|]. by intros (t & Ht%elem_of_nil & _).
  - destruct (table_info db (table_info_statement t)) as [columns|] eqn:Ht.
    + destruct (schema_lines db tables) as [lines|].
      * split; [done|]. intros (t' & [->|Hin]%elem_of_cons & Hnone); [congruence|].
        assert (Some lines = None) as [=]. apply IH. by exists t'.
      * split; [|done]. intros _. destruct (proj1 IH eq_refl) as (t' & Hin & Hnone).
        exists t'. split; [by right | done].
    + split; [|done]. intros _. exists t. split; [by left | done].
Qed.

Lemma schema_lines_elem (db : catalog) (tables lines : list string) (t : string) :
  schema_lines db tables = Some lines -> t ∈ tables ->
  table_line t ∈ lines
  /\ exists columns,
       table_info db (table_info_statement t) = Some columns
       /\ forall col, col ∈ columns -> column_line col ∈ lines.
Proof.
  revert lines. induction tables as [|t' tables IH]; intros lines Hrun Hin;
    [by apply elem_of_nil in Hin|].
  cbn [schema_lines] in Hrun.
  destruct (table_info db (table_info_statement t')) as [columns|] eqn:Ht'; [|done].
  destruct (schema_lines db tables) as [rest|]; [|done].
  injection Hrun as <-.
  apply elem_of_cons in Hin as [->|Hin].
  - split; [by left|]. exists columns. split; [done|].
    intros col Hcol. right. right. apply elem_of_app. left.
    apply list_elem_of_fmap. by exists col.
  - destruct (IH rest eq_refl Hin) as (Hline & columns' & Hinfo & Hcols).
    split; [right; right; apply elem_of_app; by right|].
    exists columns'. split; [done|].
    intros col Hcol. right. right. apply elem_of_app. right. by apply Hcols.
Qed.

(** X4: [get_schema_info] raises exactly when the query of
    [sqlite_master] raises or the [PRAGMA table_info] statement of one of
    the tables does: nothing catches either.  When it returns, the text is
    empty for a database without tables, and otherwise it holds, for every
    table, the line "Table: " with its name and, for every column SQLite
    reports for that table, the line "  - name (type)". *)
Theorem get_schema_info_lists_the_schema (db : catalog) :
  (get_schema_info db = None
   <-> master db = None
       \/ exists tables t, master db = Some tables /\ t ∈ tables
                           /\ table_info db (table_info_statement t) = None)
  /\ (forall tables text,
        master db = Some tables -> get_schema_info db = Some text ->
        (tables = [] -> text = "")
        /\ forall t, t ∈ tables ->
             contains (table_line t) text = true
             /\ exists columns,
                  table_info db (table_info_statement t) = Some columns
                  /\ forall col, col ∈ columns -> contains (column_line col) text = true).
Proof.
  unfold get_schema_info. split.
  - destruct (master db) as [tables|]; [|split; [by left | done]].
    destruct (schema_lines db tables) as [lines|] eqn:Hl.
    + split; [done|]. intros [[=] | (tables' & t & [= <-] & Hin & Hnone)].
      assert (schema_lines db tables = None) as Hn by (apply schema_lines_None; by exists t).
      congruence.
    + split; [|done]. intros _. right.
      apply schema_lines_None in Hl as (t & Hin & Hnone). by exists tables, t.
  - intros tables text -> Hrun.
    destruct (schema_lines db tables) as [lines|] eqn:Hl; [|done].
    injection Hrun as <-. split.
    + intros ->. cbn in Hl. by injection Hl as <-.
    + intros t Hin.
      destruct (schema_lines_elem db tables lines t Hl Hin) as (Hline & columns & Hinfo & Hcols).
      split; [apply contains_spec; by apply join_elem|].
      exists columns. split; [done|].
      intros col Hcol. apply contains_spec. by apply join_elem, Hcols.
Qed.

Lemma get_schema_info_lists_the_schema_witness :
  contains (table_line "transactions")
    (lf +:+ "Table: transactions" +:+ lf +:+ "Columns:" +:+ lf +:+ "  - id (TEXT)"
        +:+ lf +:+ "  - amount (REAL)") = true.
Proof.
  apply (proj2 (get_schema_info_lists_the_schema Examples.demo_catalog) ["transactions"]).
  - reflexivity.
  - reflexivity.
  - by left.
Defined.
End McpSqlServerFacts.

(** ** Numbers and frames *)
Module PandasFacts.
Import Pandas.

Lemma wrap64_id (z : Z) : int64_min <= z <= int64_max -> wrap64 z = z.
Proof.
  unfold int64_min, int64_max, wrap64. intros Hz.
  rewrite Z.mod_small by lia. lia.
Qed.

Lemma wrap64_mul_neg1 (z : Z) : wrap64 (z * -1) = wrap64 (- z).
Proof. f_equal. lia. Qed.

(** Fifty-two halvings of a mantissa that ends in fifty-two zero bits lose
    nothing. *)
Lemma shr_52 (m : positive) :
  SpecFloat.iter_pos shr_1 52 {| shr_m := Z.pos (4503599627370496 * m); shr_r := false; shr_s := false |}
  = {| shr_m := Z.pos m; shr_r := false; shr_s := false |}.
Proof. reflexivity. Qed.

Lemma digits2_shift_52 (m : positive) :
  Z.pos (digits2_pos (4503599627370496 * m)) = Z.pos (digits2_pos m) + 52.
Proof.
  simpl. rewrite Pos.mul_1_l, !Pos2Z.inj_succ. lia.
Qed.

(** Multiplying a binary64 value by [-1.0] flips its sign and rounds
    nothing away. *)
Lemma SFmul_minus_one (f : spec_float) :
  valid_binary prec emax f = true -> SFmul prec emax f minus_one = SFopp f.
Proof.
  destruct f as [s | s | | s m e]; intros Hv; cbn [SFmul SFopp minus_one].
  - by destruct s.
  - by destruct s.
  - done.
  - cbn [valid_binary] in Hv. unfold bounded, canonical_mantissa in Hv.
    apply andb_true_iff in Hv as [Hc He].
    apply Z.eqb_eq in Hc. apply Z.leb_le in He.
    replace (xorb s true) with (negb s) by (by destruct s).
    rewrite Pos.mul_comm.
    unfold binary_round_aux, shr_fexp. cbn [Zdigits2 shr_record_of_loc].
    rewrite digits2_shift_52.
    replace (Z.pos (digits2_pos m) + 52 + (e + -52)) with (Z.pos (digits2_pos m) + e) by lia.
    rewrite Hc. replace (e - (e + -52)) with 52 by lia.
    cbn [shr]. rewrite shr_52. cbn [shr_m loc_of_shr_record round_nearest_even Zdigits2].
    replace (e + -52 + 52) with e by lia.
    rewrite Hc, Z.sub_diag. cbn [shr_record_of_loc shr shr_m].
    apply Z.leb_le in He. by rewrite He.
Qed.



Section Unique.
Context `{Countable K}.

Lemma elem_of_unique_go (seen : gset K) (l : list K) (x : K) :
  x ∈ unique_go seen l <-> x ∈ l /\ x ∉ seen.
Proof.
  revert seen. induction l as [|y l IH]; intros seen; cbn [unique_go].
  - rewrite elem_of_nil. tauto.
  - destruct (decide (y ∈ seen)) as [Hy|Hy].
    + rewrite IH, elem_of_cons. split; [tauto|].
      intros [[->|Hx] Hs]; [done | tauto].
    + rewrite !elem_of_cons, IH, elem_of_union, elem_of_singleton. split.
      * intros [->|[Hx Hs]]; [tauto | split; [tauto|]]. intros Hn. apply Hs. by right.
      * intros [[->|Hx] Hs]; [by left|].
        destruct (decide (x = y)) as [->|Hne]; [by left | right].
        split; [done|]. intros [?|?]; done.
Qed.

Lemma NoDup_unique_go (seen : gset K) (l : list K) : NoDup (unique_go seen l).
Proof.
  revert seen. induction l as [|y l IH]; intros seen; cbn [unique_go].
  - constructor.
  - destruct (decide (y ∈ seen)); [apply IH|].
    constructor; [|apply IH].
    rewrite elem_of_unique_go. intros [_ Hn]. apply Hn.
    apply elem_of_union. left. by apply elem_of_singleton.
Qed.

Lemma elem_of_unique (l : list K) (x : K) : x ∈ unique l <-> x ∈ l.
Proof.
  unfold unique. rewrite elem_of_unique_go. split; [tauto|].
  intros Hx. split; [done|]. apply not_elem_of_empty.
Qed.

Lemma NoDup_unique (l : list K) : NoDup (unique l).
Proof. apply NoDup_unique_go. Qed.

Lemma unique_to_set (l : list K) : list_to_set (unique l) =@{gset K} list_to_set l.
Proof. apply set_eq. intros x. by rewrite !elem_of_list_to_set, elem_of_unique. Qed.
End Unique.

Lemma valid_binary_SFopp (f : spec_float) :
  valid_binary prec emax (SFopp f) = valid_binary prec emax f.
Proof. by destruct f. Qed.

Lemma SFopp_involutive (f : spec_float) : SFopp (SFopp f) = f.
Proof. destruct f as [s | s | | s m e]; cbn; by rewrite ?negb_involutive. Qed.

Lemma wrap64_range (z : Z) : int64_min <= wrap64 z <= int64_max.
Proof.
  unfold int64_min, int64_max, wrap64.
  pose proof (Z.mod_pos_bound (z + 2 ^ 63) (2 ^ 64) ltac:(lia)). lia.
Qed.

Lemma wrap64_neg_min : wrap64 (- int64_min) = int64_min.
Proof. reflexivity. Qed.

Lemma wrap64_neg_neg (z : Z) :
  int64_min <= z <= int64_max -> wrap64 (- wrap64 (- z)) = z.
Proof.
  intros Hz. destruct (decide (z = int64_min)) as [->|Hne].
  - by rewrite !wrap64_neg_min.
  - rewrite (wrap64_id (- z)) by (unfold int64_min, int64_max in *; lia).
    rewrite Z.opp_involutive. by apply wrap64_id.
Qed.

Lemma cell_neg_valid (c : cell) : cell_valid c = true -> cell_valid (cell_neg c) = true.
Proof.
  destruct c as [s | z | f]; cbn [cell_valid cell_neg]; [done | | by rewrite valid_binary_SFopp].
  intros _. pose proof (wrap64_range (- z)). apply andb_true_iff. split; apply Z.leb_le; lia.
Qed.

Lemma cell_neg_involutive (c : cell) : cell_valid c = true -> cell_neg (cell_neg c) = c.
Proof.
  destruct c as [s | z | f]; cbn [cell_valid cell_neg]; [done | |].
  - intros [H1 H2]%andb_true_iff. f_equal. apply wrap64_neg_neg.
    apply Z.leb_le in H1, H2. lia.
  - intros _. by rewrite SFopp_involutive.
Qed.

(** The cells the flip leaves as they are. *)
Lemma cell_neg_fixed (c : cell) :
  cell_valid c = true ->
  cell_neg c = c <-> c = CInt 0 \/ c = CInt int64_min \/ c = NaN.
Proof.
  destruct c as [s | z | f]; cbn [cell_valid cell_neg]; [done | |].
  - intros [H1 H2]%andb_true_iff. apply Z.leb_le in H1, H2. split.
    + intros [= Hz]. destruct (decide (z = int64_min)) as [->|Hne]; [right; by left|].
      rewrite wrap64_id in Hz by (unfold int64_min, int64_max in *; lia).
      left. f_equal. lia.
    + intros [[= ->] | [[= ->] | [=]]]; reflexivity.
  - intros _. split.
    + intros [= Hf]. right. right. unfold NaN. f_equal.
      destruct f as [s | s | | s m e]; cbn in Hf; try done;
        injection Hf; by destruct s.
    + intros [[=] | [[=] | [= ->]]]. reflexivity.
Qed.

Lemma series_mul_neg1_neg (s : series) :
  Forall (fun c => cell_valid c = true) (series_cells s) ->
  series_cells (series_mul_neg1 s) = cell_neg <$> series_cells s.
Proof.
  destruct s as [l | l]; cbn [series_cells series_mul_neg1]; intros Hv;
    rewrite <- !list_fmap_compose; apply list_fmap_ext; intros i x Hx; cbn.
  - by rewrite wrap64_mul_neg1.
  - f_equal. apply SFmul_minus_one.
    rewrite Forall_forall in Hv. apply (Hv (CFloat x)).
    apply list_elem_of_fmap. exists x. split; [done|]. by eapply list_elem_of_lookup_2.
Qed.

(** X5: the sign flip [raw_amounts * -1] on a well-formed Series.  Applied
    twice it gives the Series back; its result is well formed again and as
    long; and the only cells it leaves as they are, are the integer 0, the
    least [int64] (its opposite wraps around to itself) and NaN. *)
Theorem series_mul_neg1_involutive (s : series) :
  Forall (fun c => cell_valid c = true) (series_cells s) ->
  series_mul_neg1 (series_mul_neg1 s) = s
  /\ Forall (fun c => cell_valid c = true) (series_cells (series_mul_neg1 s))
  /\ length (series_cells (series_mul_neg1 s)) = length (series_cells s)
  /\ (forall i c, series_cells s !! i = Some c ->
        (series_cells (series_mul_neg1 s) !! i = Some c
         <-> c = CInt 0 \/ c = CInt int64_min \/ c = NaN)).
Proof.
  intros Hv.
  assert (Hv' : Forall (fun c => cell_valid c = true) (series_cells (series_mul_neg1 s))).
  { rewrite series_mul_neg1_neg by done. apply Forall_fmap.
    eapply Forall_impl; [exact Hv|]. intros c Hc. by apply cell_neg_valid. }
  split; [|split; [done|split]].
  - destruct s as [l | l]; cbn [series_mul_neg1 series_cells] in *; f_equal;
      rewrite <- list_fmap_compose; (etrans; [|apply list_fmap_id]);
      apply Forall_fmap_ext_1; apply Forall_fmap in Hv;
      (eapply Forall_impl; [exact Hv|]); intros x Hx; cbn in *.
    + rewrite !wrap64_mul_neg1. apply wrap64_neg_neg.
      apply andb_true_iff in Hx as [H1 H2]. apply Z.leb_le in H1, H2. lia.
    + rewrite (SFmul_minus_one x) by done.
      rewrite SFmul_minus_one by (by rewrite valid_binary_SFopp).
      apply SFopp_involutive.
  - rewrite series_mul_neg1_neg by done. by rewrite length_fmap.
  - intros i c Hi. rewrite series_mul_neg1_neg by done.
    rewrite list_lookup_fmap, Hi. cbn.
    assert (Hc : cell_valid c = true).
    { rewrite Forall_forall in Hv. apply Hv. by eapply list_elem_of_lookup_2. }
    rewrite <- (cell_neg_fixed c Hc). split; [by intros [= ->] | by intros ->].
Qed.

Lemma series_mul_neg1_involutive_witness :
  series_mul_neg1 (series_mul_neg1 (Int64Series [-42; 0; int64_min])) = Int64Series [-42; 0; int64_min].
Proof.
  apply (series_mul_neg1_involutive (Int64Series [-42; 0; int64_min])).
  repeat constructor.
Defined.
End PandasFacts.

(** ** The merchant enricher *)
Module EnricherFacts.
Import Pandas PandasFacts Enricher Examples.

Section Batch.
Context `{Countable K}.
Variable fmt : K -> string.
Variable search_tool : string -> option string.

Local Abbreviation get_merchant_info := (get_merchant_info fmt search_tool).
Local Abbreviation gather := (gather fmt search_tool).
Local Abbreviation enrich_batch := (enrich_batch fmt search_tool).
Local Abbreviation resolve := (resolve fmt search_tool).
Local Abbreviation question := (question fmt).
Local Abbreviation cache_after := (cache_after fmt search_tool).

Lemma get_merchant_info_result (d : K) (st : lookup_state K) :
  (get_merchant_info d st).1 = resolve (merchant_cache st) d.
Proof.
  unfold Enricher.get_merchant_info, Enricher.resolve.
  destruct (merchant_cache st !! d); [done|].
  by destruct (search_tool _).
Qed.

Lemma get_merchant_info_cache (d : K) (st : lookup_state K) (k : K) :
  merchant_cache (get_merchant_info d st).2 !! k = cache_after (merchant_cache st) [d] k.
Proof.
  unfold Enricher.get_merchant_info, Enricher.cache_after.
  destruct (merchant_cache st !! d) as [v|] eqn:Hd; cbn.
  - destruct (merchant_cache st !! k) eqn:Hk; [done|].
    case_decide as Hin; [|done]. apply list_elem_of_singleton in Hin. congruence.
  - destruct (search_tool (question d)) as [r|] eqn:Hs; cbn.
    + destruct (decide (d = k)) as [->|Hne].
      * rewrite lookup_insert_eq, Hd. rewrite decide_True by (by left). done.
      * rewrite lookup_insert_ne by done.
        destruct (merchant_cache st !! k); [done|].
        rewrite decide_False by (rewrite list_elem_of_singleton; congruence). done.
    + destruct (merchant_cache st !! k) eqn:Hk; [done|].
      case_decide as Hin; [|done]. apply list_elem_of_singleton in Hin. congruence.
Qed.

Lemma get_merchant_info_searches (d : K) (st : lookup_state K) :
  searches (get_merchant_info d st).2
  = searches st ++ (question <$> misses (merchant_cache st) [d]).
Proof.
  unfold Enricher.get_merchant_info, misses. cbn [filter list_filter].
  destruct (merchant_cache st !! d) as [v|] eqn:Hd.
  - rewrite decide_False by congruence. cbn. by rewrite app_nil_r.
  - rewrite decide_True by done. by destruct (search_tool _).
Qed.

(** Resolving against the cache one lookup later gives the same
    answers. *)
Lemma resolve_after_lookup (d : K) (st : lookup_state K) (k : K) :
  resolve (merchant_cache (get_merchant_info d st).2) k = resolve (merchant_cache st) k.
Proof.
  unfold Enricher.resolve. rewrite get_merchant_info_cache. unfold Enricher.cache_after.
  destruct (merchant_cache st !! k); [done|].
  case_decide as Hin; [|done]. by destruct (search_tool _).
Qed.

Lemma gather_cons (d : K) (rest : list K) (st : lookup_state K) :
  gather (d :: rest) st
  = ((get_merchant_info d st).1 :: (gather rest (get_merchant_info d st).2).1,
     (gather rest (get_merchant_info d st).2).2).
Proof.
  cbn [Enricher.gather]. destruct (get_merchant_info d st) as [r st1]. cbn.
  by destruct (gather rest st1).
Qed.

(** Every task of the batch returns what its description resolves to
    against the cache the batch started from. *)
Lemma gather_results (ds : list K) (st : lookup_state K) :
  (gather ds st).1 = resolve (merchant_cache st) <$> ds.
Proof.
  revert st. induction ds as [|d ds IH]; intros st; [done|].
  rewrite gather_cons. cbn. rewrite get_merchant_info_result, IH. f_equal.
  apply list_fmap_ext. intros _ k _. apply resolve_after_lookup.
Qed.

Lemma gather_cache (ds : list K) (st : lookup_state K) (k : K) :
  merchant_cache (gather ds st).2 !! k = cache_after (merchant_cache st) ds k.
Proof.
  revert st. induction ds as [|d ds IH]; intros st.
  - cbn. unfold Enricher.cache_after. destruct (merchant_cache st !! k); [done|].
    rewrite decide_False by apply not_elem_of_nil. done.
  - rewrite gather_cons. cbn [snd]. rewrite IH. unfold Enricher.cache_after at 1.
    rewrite get_merchant_info_cache. unfold Enricher.cache_after.
    destruct (merchant_cache st !! k); [done|].
    destruct (decide (k ∈ [d])) as [Hin|Hin].
    + apply list_elem_of_singleton in Hin as ->.
      rewrite (decide_True (P := d ∈ d :: ds)) by (by left).
      destruct (search_tool _); [done|]. case_decide; done.
    + rewrite list_elem_of_singleton in Hin.
      destruct (decide (k ∈ ds)).
      * rewrite decide_True by (by right). done.
      * rewrite decide_False by (rewrite elem_of_cons; tauto). done.
Qed.

Lemma misses_ext (c1 c2 : gmap K string) (ds : list K) :
  (forall k, k ∈ ds -> c1 !! k = None <-> c2 !! k = None) ->
  misses c1 ds = misses c2 ds.
Proof.
  unfold misses. induction ds as [|d ds IH]; intros Hext; [done|].
  rewrite !filter_cons, IH by (intros k Hk; apply Hext; by right).
  pose proof (Hext d ltac:(by left)) as Hd.
  destruct (decide (c1 !! d = None)), (decide (c2 !! d = None)); tauto.
Qed.

Lemma misses_after_lookup (d : K) (ds : list K) (st : lookup_state K) :
  d ∉ ds ->
  misses (merchant_cache (get_merchant_info d st).2) ds = misses (merchant_cache st) ds.
Proof.
  intros Hd. apply misses_ext. intros k Hk.
  rewrite get_merchant_info_cache. unfold Enricher.cache_after.
  destruct (merchant_cache st !! k); [done|].
  rewrite decide_False; [done|].
  rewrite list_elem_of_singleton. by intros ->.
Qed.

(** The searches of a batch over distinct descriptions: one per
    description that the cache did not hold, in task order. *)
Lemma gather_searches (ds : list K) (st : lookup_state K) :
  NoDup ds ->
  searches (gather ds st).2
  = searches st ++ (question <$> misses (merchant_cache st) ds).
Proof.
  intros Hnd. revert st. induction Hnd as [|d ds Hd Hnd IH]; intros st.
  - cbn. by rewrite app_nil_r.
  - rewrite gather_cons. cbn [snd]. rewrite IH, get_merchant_info_searches.
    rewrite misses_after_lookup by done.
    rewrite <- app_assoc, <- fmap_app. do 2 f_equal.
    unfold misses. by rewrite <- filter_app.
Qed.

(** [dict(zip(ks, [f(k) for k in ks]))] maps each key to its value. *)
Lemma dict_zip_lookup (f : K -> string) (ks : list K) (k : K) :
  dict_zip ks (f <$> ks) !! k = if decide (k ∈ ks) then Some (f k) else None.
Proof.
  unfold dict_zip.
  assert (Hz : forall l : list K, zip l (f <$> l) = (fun k => (k, f k)) <$> l).
  { induction l as [|x l IHl]; [done|]. cbn. by rewrite IHl. }
  rewrite Hz, <- fmap_reverse.
  induction ks as [|x ks IH] using rev_ind.
  - cbn. rewrite lookup_empty. rewrite decide_False by apply not_elem_of_nil. done.
  - rewrite reverse_app. cbn.
    destruct (decide (x = k)) as [->|Hne].
    + rewrite lookup_insert_eq.
      rewrite decide_True by (apply elem_of_app; right; by left). done.
    + rewrite lookup_insert_ne by done. rewrite IH.
      destruct (decide (k ∈ ks)).
      * rewrite decide_True by (apply elem_of_app; by left). done.
      * rewrite decide_False; [done|].
        rewrite elem_of_app, list_elem_of_singleton. intros [?|?]; congruence.
Qed.

Lemma enrich_batch_eq (descs : list K) (st : lookup_state K) :
  enrich_batch descs st
  = (dict_zip (unique descs) (resolve (merchant_cache st) <$> unique descs),
     (gather (unique descs) st).2).
Proof.
  unfold Enricher.enrich_batch.
  pose proof (gather_results (unique descs) st) as Hr.
  destruct (gather (unique descs) st) as [rs st']. cbn in *. by rewrite Hr.
Qed.

(** The mapping a batch returns: every description of the batch, and no
    other key, with what it resolves to. *)
Lemma enrich_batch_lookup (descs : list K) (st : lookup_state K) (k : K) :
  (enrich_batch descs st).1 !! k
  = if decide (k ∈ descs) then Some (resolve (merchant_cache st) k) else None.
Proof.
  rewrite enrich_batch_eq. cbn [fst]. rewrite dict_zip_lookup.
  destruct (decide (k ∈ descs)).
  - rewrite decide_True; [done|]. by apply elem_of_unique.
  - rewrite decide_False; [done|]. by rewrite elem_of_unique.
Qed.

Lemma enrich_batch_dom (descs : list K) (st : lookup_state K) :
  dom (enrich_batch descs st).1 = list_to_set descs.
Proof.
  apply set_eq. intros k. rewrite elem_of_dom, enrich_batch_lookup, elem_of_list_to_set.
  destruct (decide (k ∈ descs)); split; intros Hk; done.
Qed.

Lemma misses_size (cache : gmap K string) (descs : list K) :
  length (misses cache (unique descs)) = size (list_to_set descs ∖ dom cache : gset K).
Proof.
  rewrite <- unique_to_set.
  assert (Hnd : NoDup (misses cache (unique descs))).
  { apply NoDup_filter, NoDup_unique. }
  rewrite <- (size_list_to_set (C := gset K)) by done.
  f_equal. apply set_eq. intros k.
  rewrite elem_of_list_to_set, elem_of_difference, elem_of_list_to_set.
  unfold misses. rewrite list_elem_of_filter, not_elem_of_dom. tauto.
Qed.

(** C4: one enrichment batch sends one search for each distinct
    description that the session cache does not hold, and no other: as
    many searches as there are distinct uncached descriptions, none for a
    repeated or a cached description.  The mapping it returns has
    exactly the descriptions of the batch as its keys. *)
Theorem enrich_batch_searches (descriptions : list K) (st : lookup_state K) :
  searches (enrich_batch descriptions st).2
  = searches st ++ (question <$> misses (merchant_cache st) (unique descriptions))
  /\ NoDup (misses (merchant_cache st) (unique descriptions))
  /\ (forall d, d ∈ misses (merchant_cache st) (unique descriptions)
                <-> d ∈ descriptions /\ merchant_cache st !! d = None)
  /\ length (searches (enrich_batch descriptions st).2)
     = (length (searches st)
        + size (list_to_set descriptions ∖ dom (merchant_cache st) : gset K))%nat
  /\ dom (enrich_batch descriptions st).1 = list_to_set descriptions.
Proof.
  rewrite enrich_batch_eq. cbn [fst snd].
  rewrite gather_searches by apply NoDup_unique.
  split; [done|]. split; [apply NoDup_filter, NoDup_unique|].
  split; [|split].
  - intros d. unfold misses. rewrite list_elem_of_filter, elem_of_unique. tauto.
  - by rewrite length_app, length_fmap, misses_size.
  - rewrite <- (enrich_batch_dom descriptions st).
    by rewrite enrich_batch_eq.
Qed.

(** C3 (as amended): a lookup that fails does not stop the batch.  The
    batch returns a mapping with an entry for every description it was
    given; a description that was not cached and whose search raised is
    mapped to "Unknown"; and the session cache is left without an entry
    for it, so the next batch searches for it again. *)
Theorem enrich_batch_failed_lookup (descriptions : list K) (st : lookup_state K) (d : K) :
  d ∈ descriptions ->
  merchant_cache st !! d = None ->
  search_tool (question d) = None ->
  dom (enrich_batch descriptions st).1 = list_to_set descriptions
  /\ (enrich_batch descriptions st).1 !! d = Some "Unknown"
  /\ merchant_cache (enrich_batch descriptions st).2 !! d = None.
Proof.
  intros Hd Hc Hs. split; [apply enrich_batch_dom|]. split.
  - rewrite enrich_batch_lookup, decide_True by done.
    unfold resolve. by rewrite Hc, Hs.
  - rewrite enrich_batch_eq. cbn [snd]. rewrite gather_cache. unfold cache_after.
    rewrite Hc. by case_decide.
Qed.
End Batch.

(** Starbucks twice and Walmart once, nothing cached: two searches. *)
Lemma two_searches_for_three_rows :
  searches (enrich_batch (fun s : string => s) demo_search
              ["Starbucks"; "Starbucks"; "Walmart"] (Build_lookup_state ∅ [])).2
  = ["What type of business / store is 'Starbucks'?";
     "What type of business / store is 'Walmart'?"].
Proof. vm_compute. reflexivity. Qed.

(** A second batch in the same session: Starbucks is cached and is not
    searched again; Walmart, whose search had raised, is. *)
Lemma second_batch_searches :
  let first := (enrich_batch (fun s : string => s) demo_search
                  ["Starbucks"; "Starbucks"; "Walmart"] (Build_lookup_state ∅ [])).2 in
  searches (enrich_batch (fun s : string => s) demo_search
              ["Walmart"; "Starbucks"; "Target"] first).2
  = searches first
    ++ ["What type of business / store is 'Walmart'?";
        "What type of business / store is 'Target'?"].
Proof. vm_compute. reflexivity. Qed.

Lemma enrich_batch_failed_lookup_witness :
  dom (enrich_batch (fun s : string => s) demo_search ["Starbucks"; "Walmart"] (Build_lookup_state ∅ [])).1
  = list_to_set ["Starbucks"; "Walmart"]
  /\ (enrich_batch (fun s : string => s) demo_search ["Starbucks"; "Walmart"] (Build_lookup_state ∅ [])).1
     !! "Walmart" = Some "Unknown"
  /\ merchant_cache
       (enrich_batch (fun s : string => s) demo_search ["Starbucks"; "Walmart"] (Build_lookup_state ∅ [])).2
     !! "Walmart" = None.
Proof.
  apply (enrich_batch_failed_lookup (fun s : string => s) demo_search ["Starbucks"; "Walmart"]
           (Build_lookup_state ∅ []) "Walmart").
  - apply list_elem_of_In. simpl. tauto.
  - reflexivity.
  - reflexivity.
Defined.

(** The search for Walmart raises: the batch answers "Unknown" for it, and
    the cache afterwards holds no "Unknown" for it. *)
Lemma enrich_batch_unknown_not_cached :
  (enrich_batch (fun s : string => s) demo_search ["Starbucks"; "Starbucks"; "Walmart"]
     (Build_lookup_state ∅ [])).1 !! "Walmart" = Some "Unknown"
  /\ merchant_cache
       (enrich_batch (fun s : string => s) demo_search ["Starbucks"; "Starbucks"; "Walmart"]
          (Build_lookup_state ∅ [])).2 !! "Walmart" <> Some "Unknown".
Proof. split; [vm_compute; reflexivity | vm_compute; discriminate]. Qed.

Lemma enrich_batch_cache `{Countable K} (fmt : K -> string) (tool : string -> option string)
    (ds : list K) (st : lookup_state K) (k : K) :
  merchant_cache (enrich_batch fmt tool ds st).2 !! k
  = cache_after fmt tool (merchant_cache st) ds k.
Proof.
  rewrite enrich_batch_eq. cbn [snd]. rewrite gather_cache.
  unfold cache_after. destruct (merchant_cache st !! k); [done|].
  destruct (decide (k ∈ ds)).
  - rewrite decide_True; [done|]. by apply elem_of_unique.
  - rewrite decide_False; [done|]. by rewrite elem_of_unique.
Qed.

Lemma enrich_batch_cache_keeps `{Countable K} (fmt : K -> string) (tool : string -> option string)
    (ds : list K) (st : lookup_state K) :
  merchant_cache st ⊆ merchant_cache (enrich_batch fmt tool ds st).2.
Proof.
  apply map_subseteq_spec. intros k v Hk.
  rewrite enrich_batch_cache. unfold cache_after. by rewrite Hk.
Qed.

Lemma enrich_batch_searches_grow `{Countable K} (fmt : K -> string)
    (tool : string -> option string) (ds : list K) (st : lookup_state K) :
  searches st `prefix_of` searches (enrich_batch fmt tool ds st).2.
Proof.
  rewrite enrich_batch_eq. cbn [snd]. rewrite gather_searches by apply NoDup_unique.
  by apply prefix_app_r.
Qed.

Section Sessions.
Context `{Countable K}.
Variable fmt : K -> string.
Variables first_tool second_tool : string -> option string.

(** X6: the cache lasts for the session.  A batch drops or changes
    nothing the cache held.  A description that an earlier batch found in
    the cache or got an answer for, resolves to the same string in any
    later batch, whatever the search tool would answer by then.  The later
    batch searches exactly for those of its descriptions that were not
    cached before the earlier batch and were either no part of it or failed
    in it. *)
Theorem later_batch_reuses_cache (ds1 ds2 : list K) (st : lookup_state K) :
  (forall d v, merchant_cache st !! d = Some v ->
               merchant_cache (enrich_batch fmt first_tool ds1 st).2 !! d = Some v)
  /\ (forall d, d ∈ ds1 -> d ∈ ds2 ->
        merchant_cache st !! d <> None \/ first_tool (question fmt d) <> None ->
        (enrich_batch fmt second_tool ds2 (enrich_batch fmt first_tool ds1 st).2).1 !! d
        = (enrich_batch fmt first_tool ds1 st).1 !! d)
  /\ (forall d, d ∈ misses (merchant_cache (enrich_batch fmt first_tool ds1 st).2) (unique ds2)
        <-> d ∈ ds2 /\ merchant_cache st !! d = None
            /\ (d ∈ ds1 -> first_tool (question fmt d) = None))
  /\ searches (enrich_batch fmt second_tool ds2 (enrich_batch fmt first_tool ds1 st).2).2
     = searches (enrich_batch fmt first_tool ds1 st).2
       ++ (question fmt <$> misses (merchant_cache (enrich_batch fmt first_tool ds1 st).2)
                              (unique ds2)).
Proof.
  pose proof (enrich_batch_cache fmt first_tool ds1 st) as Hcache.
  split; [|split; [|split]].
  - intros d v Hd. rewrite Hcache. unfold cache_after. by rewrite Hd.
  - intros d H1 H2 Hknown.
    rewrite !enrich_batch_lookup, !decide_True by done. f_equal.
    unfold resolve. rewrite Hcache. unfold cache_after.
    destruct (merchant_cache st !! d) as [v|]; [done|].
    rewrite decide_True by done.
    destruct (first_tool (question fmt d)) as [r|]; [done|].
    by destruct Hknown.
  - intros d. unfold misses. rewrite list_elem_of_filter, elem_of_unique, Hcache.
    unfold cache_after. destruct (merchant_cache st !! d) as [v|].
    + split; [by intros [? _] | by intros (_ & ? & _)].
    + destruct (decide (d ∈ ds1)) as [Hin|Hin].
      * split; [intros [Hs ?]; auto | intros (? & _ & Hs); auto].
      * split; [intros [_ ?]; split; [done|]; split; [done|]; by intros ? | by intros (? & _ & _)].
  - rewrite (enrich_batch_eq fmt second_tool). cbn [snd].
    by rewrite gather_searches by apply NoDup_unique.
Qed.
End Sessions.

Lemma later_batch_reuses_cache_witness :
  (enrich_batch (fun s : string => s) (fun _ => None) ["Walmart"; "Starbucks"]
     (enrich_batch (fun s : string => s) demo_search ["Starbucks"; "Walmart"]
        (Build_lookup_state ∅ [])).2).1 !! "Starbucks"
  = (enrich_batch (fun s : string => s) demo_search ["Starbucks"; "Walmart"]
       (Build_lookup_state ∅ [])).1 !! "Starbucks".
Proof.
  apply (later_batch_reuses_cache (fun s : string => s) demo_search (fun _ => None)
           ["Starbucks"; "Walmart"] ["Walmart"; "Starbucks"] (Build_lookup_state ∅ [])).
  - apply list_elem_of_In. simpl. tauto.
  - apply list_elem_of_In. simpl. tauto.
  - right. vm_compute. discriminate.
Defined.
End EnricherFacts.

(** ** The event loop of a batch *)
Module EventLoopFacts.
Import Pandas PandasFacts Enricher EnricherFacts Examples.

Section Lists.
Context {A : Type}.

Lemma alter_split (f : A -> A) (l : list A) (i : nat) (x : A) :
  l !! i = Some x ->
  exists l1 l2, l = l1 ++ x :: l2 /\ alter f i l = l1 ++ f x :: l2.
Proof.
  revert i. induction l as [|y l IH]; intros [|i] Hi; try done.
  - injection Hi as ->. by exists [], l.
  - destruct (IH i Hi) as (l1 & l2 & -> & Ha).
    exists (y :: l1), l2. split; [done|]. cbn. by rewrite Ha.
Qed.
End Lists.

Section Loop.
Context `{Countable K}.
Variable fmt : K -> string.
Variable search_tool : string -> option string.

Local Abbreviation step := (step fmt search_tool).
Local Abbreviation reachable := (reachable fmt search_tool).
Local Abbreviation question := (question fmt).
Local Abbreviation moves := (moves fmt search_tool).
Local Abbreviation resolve := (resolve fmt search_tool).
Local Abbreviation cache_after := (cache_after fmt search_tool).
Local Abbreviation cache_now := (cache_now fmt search_tool).
Local Abbreviation gather := (gather fmt search_tool).
Local Abbreviation linked := (linked fmt search_tool).
Local Abbreviation task_ok := (task_ok fmt search_tool).

Lemma step_moves (s s' : loop_state K) :
  step s s' ->
  exists l1 d t t' l2,
    tasks s = l1 ++ (d, t) :: l2 /\ tasks s' = l1 ++ (d, t') :: l2 /\ moves d t t' s s'.
Proof.
  intros Hstep.
  destruct Hstep as [s i d v Hi Hc | s i d n Hi Hc Hs | s i d Hi Hc Hs | s i d n Hi Hs
                    | s i d Hi | s i d r Hi Hr | s i d Hi Hr];
    cbn [tasks];
    unfold set_task;
    match goal with
    | |- context [alter ?f i (tasks s)] =>
        destruct (alter_split f _ _ _ Hi) as (l1 & l2 & Hl & Ha)
    end;
    rewrite Ha, Hl; cbn [fst];
    eexists l1, d, _, _, l2; (split; [reflexivity|]); (split; [reflexivity|]).
  - by eapply moves_hit.
  - by apply moves_enter.
  - by apply moves_park.
  - by apply moves_wake.
  - by apply moves_send.
  - by apply moves_answer.
  - by apply moves_fail.
Qed.

Lemma in_flight_sum (s : loop_state K) :
  in_flight s = sum_list_with holding (tasks s).
Proof.
  unfold in_flight. induction (tasks s) as [|[d t] l IH]; [done|].
  rewrite filter_cons. cbn [sum_list_with]. unfold holding at 1. cbn [snd].
  destruct (holds_semaphore t); cbn.
  - rewrite decide_True by done. cbn. by rewrite IH.
  - rewrite decide_False by done. by rewrite IH.
Qed.

Lemma in_flight_split (s : loop_state K) l1 d t l2 :
  tasks s = l1 ++ (d, t) :: l2 ->
  in_flight s
  = (sum_list_with holding l1 + (if holds_semaphore t then 1 else 0)
     + sum_list_with holding l2)%nat.
Proof.
  intros Hl. rewrite in_flight_sum, Hl, sum_list_with_app. cbn. unfold holding at 2. cbn. lia.
Qed.

(** The semaphore counts the free slots: those in flight and the value
    of the semaphore add up to what it was created with. *)
Lemma step_semaphore (s s' : loop_state K) :
  step s s' ->
  (in_flight s + sem s = semaphore_value)%nat ->
  (in_flight s' + sem s' = semaphore_value)%nat.
Proof.
  intros Hstep Hinv.
  destruct (step_moves _ _ Hstep) as (l1 & d & t & t' & l2 & Hl & Hl' & Hm).
  rewrite (in_flight_split _ _ _ _ _ Hl) in Hinv.
  rewrite (in_flight_split _ _ _ _ _ Hl').
  destruct Hm; cbn [holds_semaphore] in *; lia.
Qed.

Lemma reachable_semaphore (ds : list K) (cache : gmap K string) (s : loop_state K) :
  reachable ds cache s -> (in_flight s + sem s = semaphore_value)%nat.
Proof.
  induction 1 as [|s s' _ IH Hstep].
  - rewrite in_flight_sum. cbn.
    assert (Hz : forall l : list K,
               sum_list_with holding ((fun d => (d, Created)) <$> l) = 0%nat).
    { induction l as [|x l IHl]; [done|]. cbn. by rewrite IHl. }
    by rewrite Hz.
  - by apply (step_semaphore s s').
Qed.

Lemma state_of_split_eq l1 (d : K) t l2 :
  NoDup (l1 ++ (d, t) :: l2).*1 -> state_of (l1 ++ (d, t) :: l2) d = Some t.
Proof.
  intros Hnd. unfold state_of. apply elem_of_list_to_map; [done|].
  apply elem_of_app. right. by left.
Qed.

Lemma state_of_split_ne l1 (d : K) t t' l2 k :
  k ≠ d -> state_of (l1 ++ (d, t) :: l2) k = state_of (l1 ++ (d, t') :: l2) k.
Proof.
  intros Hne. unfold state_of.
  rewrite !list_to_map_app, !lookup_union. cbn.
  rewrite !lookup_insert_ne by done. done.
Qed.

Lemma keys_split l1 (d : K) (t t' : task_state) l2 :
  (l1 ++ (d, t') :: l2).*1 = (l1 ++ (d, t) :: l2).*1.
Proof. by rewrite !fmap_app. Qed.

Lemma sent_split (cache0 : gmap K string) l1 d t l2 :
  (filter (fun kt => sent cache0 kt = true) (l1 ++ (d, t) :: l2)).*1
  = (filter (fun kt => sent cache0 kt = true) l1).*1
    ++ (if sent cache0 (d, t) then [d] else [])
    ++ (filter (fun kt => sent cache0 kt = true) l2).*1.
Proof.
  rewrite filter_app, filter_cons, fmap_app.
  destruct (sent cache0 (d, t)).
  - by rewrite decide_True.
  - by rewrite decide_False.
Qed.

Lemma linked_init (ds : list K) (cache0 : gmap K string) :
  NoDup ds -> linked ds cache0 (gather_init ds cache0).
Proof.
  intros Hnd. split; cbn.
  - rewrite <- list_fmap_compose. apply list_fmap_id.
  - apply Forall_fmap, Forall_forall. by intros d _.
  - intros k. unfold cache_now. destruct (cache0 !! k) eqn:Hk; [done|].
    destruct (state_of _ k) as [t|] eqn:Hs; [|done].
    unfold state_of in Hs. apply elem_of_list_to_map_2 in Hs.
    apply list_elem_of_fmap in Hs as (d & [= -> ->] & _). done.
  - assert (Hz : forall l : list K,
               filter (fun kt => sent cache0 kt = true) ((fun d => (d, Created)) <$> l) = []).
    { induction l as [|x l IHl]; [done|]. rewrite fmap_cons, filter_cons, IHl.
      rewrite decide_False; [done|]. by cbn. }
    by rewrite Hz.
Qed.

Lemma linked_step (ds : list K) (cache0 : gmap K string) (s s' : loop_state K) :
  NoDup ds -> step s s' -> linked ds cache0 s -> linked ds cache0 s'.
Proof.
  intros Hnd Hstep [Hkeys Htasks Hcache Hsearch].
  destruct (step_moves _ _ Hstep) as (l1 & d & t & t' & l2 & Hl & Hl' & Hm).
  rewrite Hl in Hkeys, Htasks, Hcache, Hsearch.
  assert (Hnd1 : NoDup (l1 ++ (d, t) :: l2).*1) by (by rewrite Hkeys).
  assert (Hnd2 : NoDup (l1 ++ (d, t') :: l2).*1) by (by rewrite (keys_split l1 d t t' l2), Hkeys).
  pose proof (Hcache d) as Hcd. unfold cache_now in Hcd.
  rewrite state_of_split_eq in Hcd by done.
  apply Forall_app in Htasks as [Ht1 Ht2]. apply Forall_cons in Ht2 as [Ht Ht2].
  unfold task_ok in Ht; cbn [fst snd] in Ht.
  assert (Hother : forall k, k ≠ d ->
            cache_now cache0 (l1 ++ (d, t') :: l2) k = cache_now cache0 (l1 ++ (d, t) :: l2) k).
  { intros k Hk. unfold cache_now. by rewrite (state_of_split_ne l1 d t' t l2 k Hk). }
  rewrite sent_split in Hsearch.
  split; rewrite Hl'.
  - by rewrite (keys_split l1 d t t' l2).
  - apply Forall_app. split; [done|]. apply Forall_cons. split; [|done].
    unfold task_ok; cbn [fst snd].
    destruct Hm as [s s' v Hv _ _ _ | s s' Hv _ _ _ | s s' Hv _ _ _ _ | s s' _ _ _
                   | s s' _ _ _ | s s' r Hr _ _ _ | s s' Hr _ _ _]; try done.
    + rewrite Hv in Hcd. unfold Enricher.resolve.
      destruct (cache0 !! d); [congruence | done].
    + rewrite Hv in Hcd. by destruct (cache0 !! d).
    + rewrite Hv in Hcd. by destruct (cache0 !! d).
    + unfold Enricher.resolve. by rewrite Ht, Hr.
    + unfold Enricher.resolve. by rewrite Ht, Hr.
  - intros k.
    destruct (decide (k = d)) as [->|Hk].
    + unfold cache_now. rewrite state_of_split_eq by done.
      destruct Hm as [s s' v Hv _ Hc _ | s s' Hv _ Hc _ | s s' Hv _ _ Hc _ | s s' _ Hc _
                     | s s' _ Hc _ | s s' r Hr _ Hc _ | s s' Hr _ Hc _]; rewrite Hc.
      * rewrite Hv in Hcd |- *. by destruct (cache0 !! d).
      * rewrite Hv in Hcd |- *. by destruct (cache0 !! d).
      * rewrite Hv in Hcd |- *. by destruct (cache0 !! d).
      * by rewrite Hcd, Ht.
      * by rewrite Hcd, Ht.
      * by rewrite lookup_insert_eq, Ht, Hr.
      * by rewrite Hcd, Ht, Hr.
    + rewrite Hother by done. rewrite <- Hcache.
      destruct Hm as [s s' v Hv _ Hc _ | s s' Hv _ Hc _ | s s' Hv _ _ Hc _ | s s' _ Hc _
                     | s s' _ Hc _ | s s' r Hr _ Hc _ | s s' Hr _ Hc _]; rewrite Hc; try done.
      by rewrite lookup_insert_ne.
  - rewrite sent_split.
    destruct Hm as [s s' v Hv _ _ Hq | s s' Hv _ _ Hq | s s' Hv _ _ _ Hq | s s' _ _ Hq
                   | s s' _ _ Hq | s s' r Hr _ _ Hq | s s' Hr _ _ Hq]; rewrite Hq, Hsearch;
      unfold sent; cbn [fst snd]; try done.
    * rewrite Hv in Hcd. rewrite bool_decide_eq_false_2; [done|].
      by destruct (cache0 !! d).
    * rewrite !fmap_app. cbn.
      rewrite <- !app_assoc. apply Permutation_app_head.
      by rewrite Permutation_app_comm.
    * by rewrite bool_decide_eq_true_2.
    * by rewrite bool_decide_eq_true_2.
Qed.

Lemma reachable_linked (ds : list K) (cache0 : gmap K string) (s : loop_state K) :
  NoDup ds -> reachable ds cache0 s -> linked ds cache0 s.
Proof.
  intros Hnd. induction 1 as [|s s' _ IH Hstep].
  - by apply linked_init.
  - by apply (linked_step ds cache0 s s').
Qed.

(** Every step uses up work: no schedule runs for ever. *)
Lemma step_work_left (s s' : loop_state K) :
  step s s' -> (work_left s' < work_left s)%nat.
Proof.
  intros Hstep.
  destruct (step_moves _ _ Hstep) as (l1 & d & t & t' & l2 & Hl & Hl' & Hm).
  unfold work_left. rewrite Hl, Hl', !sum_list_with_app. cbn.
  destruct Hm; cbn; lia.
Qed.

Lemma unfinished_task (l : list (K * task_state)) :
  forallb (fun kt => finished kt.2) l = false ->
  exists i d t, l !! i = Some (d, t) /\ finished t = false.
Proof.
  induction l as [|[d t] l IH]; [done|]. cbn.
  destruct (finished t) eqn:Ht; cbn.
  - intros Hl. destruct (IH Hl) as (i & d' & t' & Hi & Hf). by exists (S i), d', t'.
  - intros _. by exists 0%nat, d, t.
Qed.

Lemma holding_task (l : list (K * task_state)) :
  (0 < sum_list_with holding l)%nat ->
  exists i d t, l !! i = Some (d, t) /\ holds_semaphore t = true.
Proof.
  induction l as [|[d t] l IH]; cbn; [lia|].
  unfold holding at 1. cbn. destruct (holds_semaphore t) eqn:Ht.
  - intros _. by exists 0%nat, d, t.
  - intros Hl. destruct (IH Hl) as (i & d' & t' & Hi & Hf). by exists (S i), d', t'.
Qed.

Lemma running_task_steps (s : loop_state K) i d t :
  tasks s !! i = Some (d, t) -> holds_semaphore t = true -> exists s', step s s'.
Proof.
  intros Hi Ht. destruct t; try done.
  - eexists. by eapply step_send.
  - destruct (search_tool (question d)) as [r|] eqn:Hr.
    + eexists. by eapply step_answer.
    + eexists. by eapply step_fail.
Qed.

(** The loop never gets stuck: while a task has not returned, some task
    can move. *)
Lemma reachable_progress (ds : list K) (cache0 : gmap K string) (s : loop_state K) :
  reachable ds cache0 s -> all_finished s = false -> exists s', step s s'.
Proof.
  intros Hreach Hfin.
  pose proof (reachable_semaphore _ _ _ Hreach) as Hsem.
  destruct (unfinished_task _ Hfin) as (i & d & t & Hi & Ht).
  destruct t; try done.
  - destruct (loop_cache s !! d) as [v|] eqn:Hc.
    + eexists. by eapply step_hit.
    + destruct (sem s) as [|n] eqn:Hs.
      * eexists. by eapply step_park.
      * eexists. by eapply step_enter.
  - destruct (sem s) as [|n] eqn:Hs.
    + rewrite in_flight_sum in Hsem. unfold semaphore_value in Hsem.
      destruct (holding_task (tasks s)) as (j & d' & t' & Hj & Hh); [lia|].
      by eapply running_task_steps.
    + eexists. by eapply step_wake.
  - by eapply running_task_steps.
  - by eapply running_task_steps.
Qed.

Lemma finished_tasks (cache0 : gmap K string) (l : list (K * task_state)) :
  Forall (task_ok cache0) l ->
  forallb (fun kt => finished kt.2) l = true ->
  l = (fun d => (d, Finished (resolve cache0 d))) <$> l.*1.
Proof.
  induction 1 as [|[d t] l Ht _ IH]; [done|]. cbn.
  intros [Hf Hl]%andb_true_iff. rewrite <- IH by done.
  destruct t; try done. unfold Enricher.task_ok in Ht. cbn in Ht. by rewrite Ht.
Qed.

Lemma state_of_finished (f : K -> string) (ds : list K) (k : K) :
  NoDup ds ->
  state_of ((fun d => (d, Finished (f d))) <$> ds) k
  = if decide (k ∈ ds) then Some (Finished (f k)) else None.
Proof.
  intros Hnd. unfold state_of. destruct (decide (k ∈ ds)) as [Hin|Hin].
  - apply elem_of_list_to_map.
    + by rewrite <- list_fmap_compose, list_fmap_id.
    + apply list_elem_of_fmap. by exists k.
  - apply not_elem_of_list_to_map. by rewrite <- list_fmap_compose, list_fmap_id.
Qed.

Lemma sent_finished (cache0 : gmap K string) (f : K -> string) (ds : list K) :
  (filter (fun kt => sent cache0 kt = true) ((fun d => (d, Finished (f d))) <$> ds)).*1
  = misses cache0 ds.
Proof.
  unfold misses. induction ds as [|d ds IH]; [done|].
  rewrite fmap_cons, !filter_cons, <- IH. unfold sent at 1. cbn [fst snd].
  destruct (decide (cache0 !! d = None)) as [Hd|Hd].
  - rewrite decide_True by (by apply bool_decide_eq_true_2). done.
  - rewrite decide_False; [done|]. by intros ?%bool_decide_eq_true.
Qed.

(** Whatever the schedule, once every task has returned the loop has
    produced what [gather] computes: the same results in task order, the
    same cache, the same searches up to their order. *)
Lemma gather_any_schedule (ds : list K) (st : lookup_state K) (s : loop_state K) :
  NoDup ds ->
  reachable ds (merchant_cache st) s ->
  all_finished s = true ->
  tasks s = zip ds (Finished <$> (gather ds st).1)
  /\ loop_cache s = merchant_cache (gather ds st).2
  /\ searches st ++ loop_searches s ≡ₚ searches (gather ds st).2.
Proof.
  intros Hnd Hreach Hfin.
  destruct (reachable_linked _ _ _ Hnd Hreach) as [Hkeys Htasks Hcache Hsearch].
  pose proof (finished_tasks _ _ Htasks Hfin) as Hl. rewrite Hkeys in Hl.
  split; [|split].
  - rewrite Hl, gather_results. clear.
    induction ds as [|d ds IH]; [done|]. cbn. by rewrite IH.
  - apply map_eq. intros k. rewrite Hcache, gather_cache, Hl.
    unfold Enricher.cache_now, Enricher.cache_after.
    rewrite state_of_finished by done.
    destruct (merchant_cache st !! k); [done|]. by destruct (decide (k ∈ ds)).
  - rewrite gather_searches by done. apply Permutation_app_head.
    by rewrite Hsearch, Hl, sent_finished.
Qed.

End Loop.


(** Six uncached descriptions: once five lookups have entered, the
    semaphore is at zero and the sixth task parks on it. *)
Lemma sixth_lookup_waits :
  exists s : loop_state string,
    reachable (fun d : string => d) (fun _ => None) ["a"; "b"; "c"; "d"; "e"; "f"] ∅ s
    /\ in_flight s = 5%nat
    /\ sem s = 0%nat
    /\ tasks s !! 5%nat = Some ("f", Waiting).
Proof.
  eexists. split.
  - eapply reach_step;
      [eapply reach_step;
         [eapply reach_step;
            [eapply reach_step;
               [eapply reach_step;
                  [eapply reach_step; [apply reach_init|]|]|]|]|]|].
    + eapply (step_enter _ _ _ 0%nat); reflexivity.
    + eapply (step_enter _ _ _ 1%nat); reflexivity.
    + eapply (step_enter _ _ _ 2%nat); reflexivity.
    + eapply (step_enter _ _ _ 3%nat); reflexivity.
    + eapply (step_enter _ _ _ 4%nat); reflexivity.
    + eapply (step_park _ _ _ 5%nat); reflexivity.
  - split; [|split]; reflexivity.
Qed.


Section Runs.
Context `{Countable K}.
Variable fmt : K -> string.
Variable search_tool : string -> option string.

Local Abbreviation step := (step fmt search_tool).
Local Abbreviation reachable := (reachable fmt search_tool).
Local Abbreviation question := (question fmt).
Local Abbreviation gather := (gather fmt search_tool).
Local Abbreviation linked := (linked fmt search_tool).
Local Abbreviation task_ok := (task_ok fmt search_tool).

Lemma reachable_nsteps (ds : list K) (cache : gmap K string) (s s' : loop_state K) (n : nat) :
  reachable ds cache s -> nsteps step n s s' -> reachable ds cache s'.
Proof.
  intros Hreach Hrun. induction Hrun as [s | n s s1 s' Hstep _ IH]; [done|].
  apply IH. by eapply reach_step.
Qed.

Lemma nsteps_work_left (s s' : loop_state K) (n : nat) :
  nsteps step n s s' -> (n + work_left s' <= work_left s)%nat.
Proof.
  induction 1 as [s | n s s1 s' Hstep _ IH]; [done|].
  apply (step_work_left fmt search_tool) in Hstep. lia.
Qed.

Lemma work_left_init (ds : list K) (cache : gmap K string) :
  work_left (gather_init ds cache) = (4 * length ds)%nat.
Proof.
  unfold work_left. cbn [tasks gather_init].
  induction ds as [|d ds IH]; [done|]. cbn. rewrite IH. lia.
Qed.

Lemma reachable_can_finish (ds : list K) (cache : gmap K string) (s : loop_state K) :
  reachable ds cache s ->
  exists n s', nsteps step n s s' /\ all_finished s' = true.
Proof.
  remember (work_left s) as w eqn:Hw. revert s Hw.
  induction (lt_wf w) as [w _ IH]. intros s -> Hreach.
  destruct (all_finished s) eqn:Hfin.
  - exists 0%nat, s. split; [constructor | done].
  - destruct (reachable_progress fmt search_tool ds cache s Hreach Hfin) as [s1 Hstep].
    destruct (IH (work_left s1) (step_work_left fmt search_tool _ _ Hstep) s1 eq_refl)
      as (n & s' & Hrun & Hdone); [by eapply reach_step|].
    exists (S n), s'. split; [by eapply nsteps_l | done].
Qed.

Lemma all_finished_in_flight (s : loop_state K) :
  all_finished s = true -> in_flight s = 0%nat.
Proof.
  unfold in_flight, all_finished. induction (tasks s) as [|[d t] l IH]; [done|].
  rewrite filter_cons. cbn [forallb snd]. intros [Hf Hl]%andb_true_iff.
  destruct t; try done. rewrite decide_False by done. by apply IH.
Qed.

(** X7: every run of the event loop on a batch ends.  After [n] steps from
    the start, [n] is at most four times the number of tasks; from the
    state reached, the tasks can be brought to their end within the same
    bound; and as long as a task has not returned, some task can move: the
    semaphore cannot block the batch. *)
Theorem batch_always_ends (ds : list K) (cache : gmap K string) (s : loop_state K) (n : nat) :
  nsteps step n (gather_init ds cache) s ->
  (n + work_left s <= 4 * length ds)%nat
  /\ (exists m s', nsteps step m s s' /\ all_finished s' = true
                   /\ (n + m <= 4 * length ds)%nat)
  /\ (all_finished s = false -> exists s', step s s').
Proof.
  intros Hrun.
  assert (Hreach : reachable ds cache s).
  { eapply reachable_nsteps; [apply reach_init | exact Hrun]. }
  pose proof (nsteps_work_left _ _ _ Hrun) as Hwork. rewrite work_left_init in Hwork.
  split; [done|]. split.
  - destruct (reachable_can_finish ds cache s Hreach) as (m & s' & Hrest & Hdone).
    exists m, s'. split; [done|]. split; [done|].
    pose proof (nsteps_work_left _ _ _ Hrest). lia.
  - by apply (reachable_progress fmt search_tool ds cache).
Qed.

(** X8: in whatever order the event loop runs the tasks of a batch over
    distinct descriptions, once no task can move every task has returned,
    and the results in task order, the cache and the searches sent (up to
    their order) are those [gather] computes by running the tasks one after
    the other; the semaphore is back at its initial value. *)
Theorem every_schedule_ends_as_gather (ds : list K) (st : lookup_state K)
    (s : loop_state K) (n : nat) :
  NoDup ds ->
  nsteps step n (gather_init ds (merchant_cache st)) s ->
  (forall s', ~ step s s') ->
  tasks s = zip ds (Finished <$> (gather ds st).1)
  /\ loop_cache s = merchant_cache (gather ds st).2
  /\ searches st ++ loop_searches s ≡ₚ searches (gather ds st).2
  /\ sem s = semaphore_value.
Proof.
  intros Hnd Hrun Hstuck.
  assert (Hreach : reachable ds (merchant_cache st) s).
  { eapply reachable_nsteps; [apply reach_init | exact Hrun]. }
  assert (Hfin : all_finished s = true).
  { destruct (all_finished s) eqn:Hfin; [done|].
    destruct (reachable_progress fmt search_tool _ _ _ Hreach Hfin) as [s' Hstep].
    by destruct (Hstuck s'). }
  destruct (gather_any_schedule fmt search_tool ds st s Hnd Hreach Hfin) as (Ht & Hc & Hs).
  split; [done|]. split; [done|]. split; [done|].
  pose proof (reachable_semaphore fmt search_tool _ _ _ Hreach) as Hsem.
  pose proof (all_finished_in_flight s Hfin). lia.
Qed.

Lemma filter_sent_length (cache0 : gmap K string) (l : list (K * task_state)) :
  Forall (task_ok cache0) l ->
  (length (filter (fun kt => sent cache0 kt = true) l)
   <= length (misses cache0 l.*1))%nat.
Proof.
  unfold misses. induction 1 as [|[d t] l Ht _ IH]; [done|].
  rewrite fmap_cons, !filter_cons. cbn [fst].
  destruct (decide (sent cache0 (d, t) = true)) as [Hs|Hs].
  - assert (cache0 !! d = None) as Hd.
    { unfold sent in Hs. unfold Enricher.task_ok in Ht. cbn [fst snd] in *.
      destruct t; try done. by apply bool_decide_eq_true in Hs. }
    rewrite decide_True by done. cbn. lia.
  - destruct (decide (cache0 !! d = None)); cbn; lia.
Qed.

(** X9: in every state a batch over distinct descriptions can reach, the
    task of a description that was cached at the start has either not run
    yet or has returned the cached value: it never waits for the semaphore
    nor holds it.  Every search sent so far is for a description of the
    batch that was not cached, and there are at most as many searches as
    there are such descriptions. *)
Theorem cached_descriptions_skip_the_semaphore (ds : list K) (cache0 : gmap K string)
    (s : loop_state K) :
  NoDup ds ->
  reachable ds cache0 s ->
  (forall i d t v, tasks s !! i = Some (d, t) -> cache0 !! d = Some v ->
                   t = Created \/ t = Finished v)
  /\ (length (loop_searches s) <= length (misses cache0 ds))%nat
  /\ (forall q, q ∈ loop_searches s ->
                exists d, q = question d /\ d ∈ ds /\ cache0 !! d = None).
Proof.
  intros Hnd Hreach.
  destruct (reachable_linked fmt search_tool _ _ _ Hnd Hreach) as [Hkeys Htasks Hcache Hsearch].
  split; [|split].
  - intros i d t v Hi Hd.
    rewrite Forall_forall in Htasks.
    pose proof (Htasks (d, t) (list_elem_of_lookup_2 _ _ _ Hi)) as Hok.
    unfold Enricher.task_ok in Hok. cbn [fst snd] in Hok.
    destruct t; try congruence; [by left|].
    right. rewrite Hok. unfold resolve. by rewrite Hd.
  - rewrite Hsearch, !length_fmap, <- Hkeys. by apply filter_sent_length.
  - intros q Hq. rewrite Hsearch in Hq.
    apply list_elem_of_fmap in Hq as (d & -> & Hd).
    apply list_elem_of_fmap in Hd as ([d' t] & -> & Hin).
    apply list_elem_of_filter in Hin as [Hs Hin]. cbn [fst].
    exists d'. split; [done|]. split.
    + rewrite <- Hkeys. apply list_elem_of_fmap. by exists (d', t).
    + rewrite Forall_forall in Htasks. pose proof (Htasks _ Hin) as Hok.
      unfold sent in Hs. unfold Enricher.task_ok in Hok. cbn [fst snd] in *.
      destruct t; try done. by apply bool_decide_eq_true in Hs.
Qed.
End Runs.

Lemma uncached_run :
  nsteps (step (fun d : string => d) demo_search) 3 uncached_start uncached_end.
Proof.
  pose (s1 := {| sem := 4; tasks := [("Walmart", Sleeping)];
                 loop_cache := (∅ : gmap string string); loop_searches := [] |}).
  pose (s2 := {| sem := 4; tasks := [("Walmart", Searching)];
                 loop_cache := (∅ : gmap string string);
                 loop_searches := ["What type of business / store is 'Walmart'?"] |}).
  apply (nsteps_l _ _ _ s1);
    [exact (step_enter (fun d : string => d) demo_search uncached_start 0 "Walmart" 4
              eq_refl eq_refl eq_refl)|].
  apply (nsteps_l _ _ _ s2);
    [exact (step_send (fun d : string => d) demo_search s1 0 "Walmart" eq_refl)|].
  apply nsteps_once.
  exact (step_fail (fun d : string => d) demo_search s2 0 "Walmart" eq_refl eq_refl).
Qed.

Lemma uncached_end_stuck (s' : loop_state string) :
  ~ step (fun d : string => d) demo_search uncached_end s'.
Proof.
  intros Hstep.
  inversion Hstep as [s i d v Hi | s i d n Hi | s i d Hi | s i d n Hi
                     | s i d Hi | s i d r Hi | s i d Hi]; subst;
    destruct i as [|i]; discriminate Hi.
Qed.

Lemma batch_always_ends_witness :
  (3 + work_left uncached_end <= 4 * length ["Walmart"])%nat.
Proof.
  apply (batch_always_ends (fun d : string => d) demo_search ["Walmart"] ∅ uncached_end 3).
  exact uncached_run.
Defined.

Lemma every_schedule_ends_as_gather_witness :
  tasks uncached_end
  = zip ["Walmart"]
      (Finished <$> (gather (fun d : string => d) demo_search ["Walmart"]
                       (Build_lookup_state ∅ [])).1).
Proof.
  apply (every_schedule_ends_as_gather (fun d : string => d) demo_search ["Walmart"]
           (Build_lookup_state ∅ []) uncached_end 3).
  - apply NoDup_singleton.
  - exact uncached_run.
  - exact uncached_end_stuck.
Defined.

Lemma cached_descriptions_skip_the_semaphore_witness :
  (length (loop_searches cached_end)
   <= length (misses {["Starbucks" := "Coffee shop chain"]} ["Starbucks"]))%nat.
Proof.
  apply (cached_descriptions_skip_the_semaphore (fun d : string => d) demo_search
           ["Starbucks"] {["Starbucks" := "Coffee shop chain"]} cached_end).
  - apply NoDup_singleton.
  - eapply reach_step; [apply reach_init|].
    exact (step_hit (fun d : string => d) demo_search
             (gather_init ["Starbucks"] {["Starbucks" := "Coffee shop chain"]})
             0 "Starbucks" "Coffee shop chain" eq_refl eq_refl).
Defined.
End EventLoopFacts.

(** ** The session: ingestion, indexing, answers *)
Module MoneyRagFacts.
Import PyStr Pandas PandasFacts Exn Enricher EnricherFacts MoneyRag Examples.

(** One step through a [do]: the bound computation returned. *)
Ltac bind_ok H x E :=
  match type of H with
  | Exn.bind ?e _ = inr _ =>
      destruct e as [?|x] eqn:E; [discriminate H|]; cbn [Exn.bind] in H
  end.

Lemma mapping_getitem_inv mapping key v :
  mapping_getitem mapping key = inr v -> mapping !! key = Some v.
Proof. unfold mapping_getitem. destruct (mapping !! key); [by intros [= ->] | done]. Qed.

Lemma frame_rows_lookup (sdf : StandardFrame) (i : nat) :
  (i < length (col_id sdf))%nat -> frame_rows sdf !! i = Some (frame_row sdf i).
Proof.
  intros Hi. unfold frame_rows. rewrite list_lookup_fmap, lookup_seq_lt by done. done.
Qed.

Lemma frame_rows_length (sdf : StandardFrame) :
  length (frame_rows sdf) = length (col_id sdf).
Proof. unfold frame_rows. by rewrite length_fmap, length_seq. Qed.

Lemma cell_at_fmap_seq (f : nat -> cell) (n i : nat) :
  (i < n)%nat -> cell_at (f <$> seq 0 n) i = f i.
Proof. intros Hi. unfold cell_at. by rewrite list_lookup_fmap, lookup_seq_lt. Qed.

Lemma _ingest_csv_inv lib w file self self' :
  _ingest_csv lib w file self = inr self' ->
  exists raw_amounts sign_convention new,
    ingested lib w file self self' raw_amounts sign_convention new.
Proof.
  unfold _ingest_csv. intros Hrun.
  bind_ok Hrun mapping Emap. bind_ok Hrun date_col Edc.
  bind_ok Hrun date_column Edf. bind_ok Hrun dates Edates.
  bind_ok Hrun desc_col Esc. bind_ok Hrun desc_column Esf.
  bind_ok Hrun amount_col Eac. bind_ok Hrun amount_column Eaf.
  bind_ok Hrun raw_amounts Eraw. bind_ok Hrun sign_convention Esign.
  bind_ok Hrun categories Ecat.
  match type of Hrun with context [Enricher.gather ?f ?s (unique ?l) ?st] =>
    assert (Hb : Enricher.enrich_batch f s l st
                 = (dict_zip (unique l) (Enricher.gather f s (unique l) st).1,
                    (Enricher.gather f s (unique l) st).2))
      by (unfold Enricher.enrich_batch; by destruct (Enricher.gather f s (unique l) st));
    destruct (Enricher.gather f s (unique l) st) as [rs st'] eqn:Hg
  end.
  cbn [fst snd] in Hb.
  injection Hrun as <-.
  set (n := df_len (frame file)) in *.
  set (descs := cell_at (column_cells desc_column) <$> seq 0 n) in *.
  match goal with |- context [to_sql ?f _] => set (sdf := f) end.
  assert (Hlen : length (col_id sdf) = n) by (cbn; by rewrite length_fmap, length_seq).
  assert (Hdescs : description <$> frame_rows sdf = descs).
  { unfold frame_rows. rewrite Hlen, <- list_fmap_compose.
    apply list_fmap_ext. intros j i Hi%lookup_seq. cbn.
    apply cell_at_fmap_seq. lia. }
  exists raw_amounts, sign_convention, (frame_rows sdf). split; cbn [table collection vector_store agent enrichment].
  - exists mapping, amount_col, amount_column. repeat split; try done; by apply mapping_getitem_inv.
  - done.
  - by rewrite frame_rows_length.
  - intros i row Hi.
    assert (i < n)%nat as Hin.
    { apply lookup_lt_Some in Hi. by rewrite frame_rows_length, Hlen in Hi. }
    rewrite frame_rows_lookup in Hi by lia. injection Hi as <-.
    cbn. by apply cell_at_fmap_seq.
  - intros row Hrow. apply list_elem_of_lookup in Hrow as [i Hi].
    assert (i < n)%nat as Hin.
    { apply lookup_lt_Some in Hi. by rewrite frame_rows_length, Hlen in Hi. }
    rewrite frame_rows_lookup in Hi by lia. injection Hi as <-.
    rewrite Hdescs, Hb. cbn.
    assert (Hdi : descs !! i = Some (cell_at descs i)).
    { unfold cell_at. destruct (descs !! i) eqn:Hd; [done|].
      apply lookup_ge_None in Hd. unfold descs in Hd.
      rewrite length_fmap, length_seq in Hd. lia. }
    unfold fillna, series_map. by rewrite !list_lookup_fmap, Hdi.
  - rewrite Hdescs, Hb. done.
  - done.
Qed.


(** The enrichment step of [_ingest_csv] is one batch over the descriptions
    of the rows it appends. *)
Lemma _ingest_csv_batch lib w file self self' :
  _ingest_csv lib w file self = inr self' ->
  exists new,
    table self' = Some (default [] (table self) ++ new)
    /\ enrichment self'
       = (enrich_batch (format_cell lib) (search_tool w)
            (description <$> new) (enrichment self)).2.
Proof.
  intros Hrun. destruct (_ingest_csv_inv _ _ _ _ _ Hrun) as (raw & sign & new & Hing).
  exists new. by destruct Hing.
Qed.





(** The raw amount -42.50 from a float column, spending_is_negative: the
    stored amount is 42.50. *)
Lemma sign_flip_of_a_float :
  series_mul_neg1 (Float64Series [S754_finite true 5981343255101440 (-47)])
  = Float64Series [S754_finite false 5981343255101440 (-47)].
Proof. vm_compute. reflexivity. Qed.


(** C9: every row [_ingest_csv] writes has a string as its
    [enriched_info], never a null: the value the enrichment mapping of the
    batch holds for the row's description, and the empty string where the
    mapping holds none. *)
Theorem enriched_info_is_string :
  (forall (desc_map : gmap cell string) (descriptions : list cell) i d,
      descriptions !! i = Some d ->
      fillna "" (series_map desc_map descriptions) !! i
      = Some (Some (default "" (desc_map !! d)))
      /\ (desc_map !! d = None ->
          fillna "" (series_map desc_map descriptions) !! i = Some (Some "")))
  /\ (forall lib w file self self',
        _ingest_csv lib w file self = inr self' ->
        exists new,
          table self' = Some (default [] (table self) ++ new)
          /\ length new = df_len (frame file)
          /\ forall row, row ∈ new ->
               enriched_info row
               = Some (default ""
                         ((enrich_batch (format_cell lib) (search_tool w)
                             (description <$> new) (enrichment self)).1
                          !! description row))).
Proof.
  split.
  - intros desc_map descriptions i d Hi.
    unfold fillna, series_map. rewrite !list_lookup_fmap, Hi. cbn.
    split; [done|]. by intros ->.
  - intros lib w file self self' Hrun.
    destruct (_ingest_csv_inv _ _ _ _ _ Hrun) as (raw & sign & new & Hing).
    exists new. destruct Hing. done.
Qed.

Lemma enriched_info_is_string_witness :
  exists self' new,
    _ingest_csv demo_library demo_world demo_file demo_session = inr self'
    /\ table self' = Some new
    /\ enriched_info <$> new
       = [Some "Coffee shop chain"; Some "Coffee shop chain"; Some "Unknown"].
Proof.
  destruct (proj2 enriched_info_is_string demo_library demo_world demo_file demo_session
              (match _ingest_csv demo_library demo_world demo_file demo_session with
               | inr s => s | inl _ => demo_session end))
    as (new & Htab & Hlen & Hrows).
  - vm_compute. reflexivity.
  - eexists _, new. split; [vm_compute; reflexivity|]. split; [exact Htab|].
    vm_compute in Htab. injection Htab as <-. vm_compute. reflexivity.
Defined.







Lemma ingest_loop_app lib pre post self self1 :
  ingest_loop lib pre self = (self1, None) ->
  ingest_loop lib (pre ++ post) self = ingest_loop lib post self1.
Proof.
  revert self. induction pre as [|[w path] pre IH]; intros self Hpre; cbn in *.
  - by injection Hpre as <-.
  - destruct (_ingest_csv lib w path self) as [e|self']; [done|]. by apply IH.
Qed.

(** An exception of [_ingest_csv], whatever it is, ends [setup_session]:
    the loop stops at that file, and neither the index nor the agent is
    set up. *)
Lemma ingest_failure_ends_session lib pre w file post self self1 e :
  ingest_loop lib pre self = (self1, None) ->
  _ingest_csv lib w file self1 = inl e ->
  setup_session lib (pre ++ (w, file) :: post) self = (self1, Some e).
Proof.
  intros Hpre Hrun.
  unfold setup_session. rewrite (ingest_loop_app _ _ _ _ _ Hpre). cbn. by rewrite Hrun.
Qed.

(** A mapping without one of the keys [_ingest_csv] reads ends it with a
    [KeyError]. *)
Lemma missing_key_raises lib w file self mapping :
  completion w = inr mapping ->
  mapping !! "date_col" = None ->
  _ingest_csv lib w file self = inl (KeyError (Some "date_col")).
Proof.
  intros Hmap Hkey. unfold _ingest_csv, mapping_getitem. rewrite Hmap. cbn [Exn.bind].
  by rewrite Hkey.
Qed.

(** C7 (as amended): when the mapping step of one file fails, the exception
    leaves [_ingest_csv] and [setup_session] and reaches the caller.  The
    session is left as the files before the failing one made it: their
    rows stay in the table, no file after the failing one is ingested, the
    vector index is not built and the agent is not set up. *)
Theorem mapping_failure_ends_session lib pre w file post self self1 e :
  ingest_loop lib pre self = (self1, None) ->
  completion w = inl e ->
  _ingest_csv lib w file self1 = inl e
  /\ setup_session lib (pre ++ (w, file) :: post) self = (self1, Some e).
Proof.
  intros Hpre Hfail.
  assert (Hrun : _ingest_csv lib w file self1 = inl e).
  { unfold _ingest_csv. by rewrite Hfail. }
  split; [done|]. by apply ingest_failure_ends_session.
Qed.

Lemma mapping_failure_ends_session_witness :
  _ingest_csv demo_library failing_world demo_file demo_session = inl OutputParserException
  /\ setup_session demo_library
       ([] ++ (failing_world, demo_file) :: [(demo_world, demo_file)]) demo_session
     = (demo_session, Some OutputParserException).
Proof.
  apply (mapping_failure_ends_session demo_library []
           failing_world demo_file [(demo_world, demo_file)] demo_session demo_session
           OutputParserException).
  - reflexivity.
  - reflexivity.
Defined.

(** Two files, the mapping of the first fails: the second one, which
    ingests well on its own, is not ingested, and the table is not even
    created. *)
Lemma later_files_not_ingested :
  (exists self' rows,
      _ingest_csv demo_library demo_world demo_file demo_session = inr self'
      /\ table self' = Some rows /\ length rows = 3%nat)
  /\ table (setup_session demo_library
              [(failing_world, demo_file); (demo_world, demo_file)] demo_session).1 = None
  /\ (setup_session demo_library
        [(failing_world, demo_file); (demo_world, demo_file)] demo_session).2
     = Some OutputParserException.
Proof.
  split; [|split].
  - eexists _, _. split; [vm_compute; reflexivity|]. split; reflexivity.
  - reflexivity.
  - reflexivity.
Qed.

Lemma text_parts_filter (blocks : list block) :
  Forall text_is_str (filter (fun b => is_text_block b = true) blocks) ->
  join_values (text_parts blocks)
  = Some (block_text <$> filter (fun b => is_text_block b = true) blocks).
Proof.
  induction blocks as [|b blocks IH]; [done|].
  rewrite filter_cons. cbn [text_parts].
  destruct b as [d|s]; cbn [is_text_block].
  - destruct (bool_decide (d !! "type" = Some (PyString "text"))) eqn:Ht.
    + rewrite decide_True by done. intros [Hb Hrest]%Forall_cons.
      cbn [fmap list_fmap block_text]. cbn in Hb.
      destruct Hb as [Hb | [s Hb]]; rewrite Hb; cbn; by rewrite IH.
    + rewrite decide_False by done. apply IH.
  - rewrite decide_False by done. apply IH.
Qed.


(** A text block whose "text" is no [str] makes the join raise. *)
Lemma text_none_raises :
  chat (ContentList [BlockDict (<["type" := PyString "text"]> (<["text" := PyNone]> ∅))])
  = raise TypeError.
Proof. reflexivity. Qed.


(** Everything a successful [_ingest_csv] read and wrote: the columns the
    mapping names, and the appended rows field by field. *)
Lemma _ingest_csv_rows lib w file self self' :
  _ingest_csv lib w file self = inr self' ->
  exists mapping date_col date_column dates desc_col desc_column
         amount_col amount_column raw_amounts sign_convention new,
    (completion w = inr mapping
     /\ mapping !! "date_col" = Some date_col
     /\ df_getitem (frame file) date_col = inr date_column
     /\ to_datetime lib date_column = Some dates
     /\ mapping !! "desc_col" = Some desc_col
     /\ df_getitem (frame file) desc_col = inr desc_column
     /\ mapping !! "amount_col" = Some amount_col
     /\ df_getitem (frame file) amount_col = inr amount_column
     /\ pd_to_numeric lib amount_column = inr raw_amounts
     /\ mapping !! "sign_convention" = Some sign_convention
     /\ (truthy (mapping_get mapping "category_col") = true ->
         is_ok (df_getitem (frame file) (mapping_get mapping "category_col")) = true))
    /\ table self' = Some (default [] (table self) ++ new)
    /\ length new = df_len (frame file)
    /\ (forall i row, new !! i = Some row ->
          id row = uuid4 w i
          /\ transaction_date row = default None (dates !! i)
          /\ description row = cell_at (column_cells desc_column) i
          /\ amount row
             = cell_at (series_cells
                          (if decide (sign_convention = Some "spending_is_negative")
                           then series_mul_neg1 raw_amounts else raw_amounts)) i
          /\ category row
             = (if truthy (mapping_get mapping "category_col")
                then match df_getitem (frame file) (mapping_get mapping "category_col") with
                     | inr category_column => cell_at (column_cells category_column) i
                     | inl _ => NaN
                     end
                else CStr "Uncategorized")
          /\ source_file row = basename (file_path file)
          /\ enriched_info row
             = Some (resolve (format_cell lib) (search_tool w)
                       (merchant_cache (enrichment self)) (description row)))
    /\ enrichment self'
       = (enrich_batch (format_cell lib) (search_tool w)
            (description <$> new) (enrichment self)).2
    /\ llm_provider self' = llm_provider self
    /\ model_name self' = model_name self
    /\ embedding_model_name self' = embedding_model_name self
    /\ collection self' = collection self
    /\ vector_store self' = vector_store self
    /\ agent self' = agent self.
Proof.
  intros Hrun.
  destruct (_ingest_csv_inv _ _ _ _ _ Hrun) as (raw0 & sign0 & new0 & Hing).
  destruct Hing as [_ Htab0 Hlen0 _ Henr0 Hst0 _].
  unfold _ingest_csv in Hrun.
  bind_ok Hrun mapping Emap. bind_ok Hrun date_col Edc.
  bind_ok Hrun date_column Edf. bind_ok Hrun dates Edates.
  bind_ok Hrun desc_col Esc. bind_ok Hrun desc_column Esf.
  bind_ok Hrun amount_col Eac. bind_ok Hrun amount_column Eaf.
  bind_ok Hrun raw_amounts Eraw. bind_ok Hrun sign_convention Esign.
  bind_ok Hrun categories Ecat.
  destruct (Enricher.gather _ _ _ _) as [rs st'] eqn:Hg.
  injection Hrun as <-.
  set (n := df_len (frame file)) in *.
  match goal with H : context [to_sql ?f _] |- _ => set (sdf := f) in * end.
  cbn [table enrichment llm_provider model_name embedding_model_name collection
       vector_store agent] in *.
  assert (Hnew : new0 = frame_rows sdf).
  { unfold to_sql in Htab0. injection Htab0 as Happ. by apply app_inv_head in Happ. }
  subst new0.
  assert (Hlen : length (col_id sdf) = n) by (cbn; by rewrite length_fmap, length_seq).
  exists mapping, date_col, date_column, dates, desc_col, desc_column,
    amount_col, amount_column, raw_amounts, sign_convention, (frame_rows sdf).
  split; [|split; [done|split; [done|split; [|split; [done|done]]]]].
  - repeat split; try done; try (by apply mapping_getitem_inv).
    + unfold pd_to_datetime in Edates. by destruct (to_datetime lib date_column) as [l|]; [injection Edates as ->|].
    + intros Ht. rewrite Ht in Ecat.
      by destruct (df_getitem (frame file) (mapping_get mapping "category_col")).
  - intros i row Hi.
    assert (i < n)%nat as Hin.
    { apply lookup_lt_Some in Hi. by rewrite frame_rows_length, Hlen in Hi. }
    assert (Hrow : row ∈ frame_rows sdf) by (by eapply list_elem_of_lookup_2).
    pose proof (Henr0 row Hrow) as Henr.
    rewrite enrich_batch_lookup in Henr.
    rewrite decide_True in Henr by (apply list_elem_of_fmap; by exists row).
    rewrite frame_rows_lookup in Hi by lia. injection Hi as <-.
    assert (Hdesc : description (frame_row sdf i) = cell_at (column_cells desc_column) i).
    { cbn. by apply cell_at_fmap_seq. }
    cbn [default] in Henr.
    split; [cbn; by rewrite list_lookup_fmap, lookup_seq_lt|].
    split; [cbn; by rewrite list_lookup_fmap, lookup_seq_lt|].
    split; [done|].
    split; [cbn; by apply cell_at_fmap_seq|].
    split; [|split; [cbn; by rewrite list_lookup_fmap, lookup_seq_lt | done]].
    cbn [category frame_row sdf col_category].
    destruct (truthy (mapping_get mapping "category_col")).
    + destruct (df_getitem (frame file) (mapping_get mapping "category_col")) as [e|c];
        [done|]. cbn in Ecat. injection Ecat as <-. by apply cell_at_fmap_seq.
    + cbn in Ecat. injection Ecat as <-. by apply cell_at_fmap_seq.
Qed.


(** X11: neither the search tool nor the state of the session decides
    how [_ingest_csv] ends.  With the same completion and the same frame it
    returns in both or raises the same exception in both, whatever the
    searches answer, whatever identifiers are drawn, whatever the path is
    called and whatever the session holds: a search that fails never makes
    the ingestion of a file fail. *)
Theorem _ingest_csv_outcome_needs_no_search lib w w' file file' self self' :
  completion w' = completion w ->
  frame file' = frame file ->
  match _ingest_csv lib w file self, _ingest_csv lib w' file' self' with
  | inl e, inl e' => e = e'
  | inr _, inr _ => True
  | _, _ => False
  end.
Proof.
  intros Hc Hf. unfold _ingest_csv. rewrite Hc, Hf.
  destruct (completion w) as [e|mapping]; cbn [Exn.bind]; [done|].
  destruct (mapping_getitem mapping "date_col") as [e|date_col]; cbn [Exn.bind]; [done|].
  destruct (df_getitem (frame file) date_col) as [e|date_column]; cbn [Exn.bind]; [done|].
  destruct (pd_to_datetime lib date_column) as [e|dates]; cbn [Exn.bind]; [done|].
  destruct (mapping_getitem mapping "desc_col") as [e|desc_col]; cbn [Exn.bind]; [done|].
  destruct (df_getitem (frame file) desc_col) as [e|desc_column]; cbn [Exn.bind]; [done|].
  destruct (mapping_getitem mapping "amount_col") as [e|amount_col]; cbn [Exn.bind]; [done|].
  destruct (df_getitem (frame file) amount_col) as [e|amount_column]; cbn [Exn.bind]; [done|].
  destruct (pd_to_numeric lib amount_column) as [e|raw_amounts]; cbn [Exn.bind]; [done|].
  destruct (mapping_getitem mapping "sign_convention") as [e|sign_convention];
    cbn [Exn.bind]; [done|].
  destruct (truthy (mapping_get mapping "category_col")).
  - destruct (df_getitem (frame file) (mapping_get mapping "category_col")) as [e|c];
      cbn [Exn.bind ok]; [done|].
    by do 2 destruct (Enricher.gather _ _ _ _).
  - cbn [Exn.bind ok]. by do 2 destruct (Enricher.gather _ _ _ _).
Qed.

Lemma _ingest_csv_outcome_needs_no_search_witness :
  match _ingest_csv demo_library demo_world demo_file demo_session,
        _ingest_csv demo_library
          {| completion := completion demo_world; uuid4 := uuid4 demo_world;
             search_tool := fun _ => None |} demo_file demo_ingested with
  | inl e, inl e' => e = e'
  | inr _, inr _ => True
  | _, _ => False
  end.
Proof.
  apply (_ingest_csv_outcome_needs_no_search demo_library demo_world
           {| completion := completion demo_world; uuid4 := uuid4 demo_world;
              search_tool := fun _ => None |} demo_file demo_file demo_session demo_ingested).
  - reflexivity.
  - reflexivity.
Defined.

(** X12: the [enriched_info] of an appended row depends on its description
    and on the cache at the start of the call alone.  It is the cached
    string where the cache has the description, else the answer of the
    search, else "Unknown", and then the cache is left without an entry for
    it; the default of [fillna] is never used.  Rows with the same
    description get the same [enriched_info]. *)
Theorem enrichment_follows_description lib w file self self' :
  _ingest_csv lib w file self = inr self' ->
  exists new,
    table self' = Some (default [] (table self) ++ new)
    /\ (forall row, row ∈ new ->
          enriched_info row
          = Some (resolve (format_cell lib) (search_tool w)
                    (merchant_cache (enrichment self)) (description row)))
    /\ (forall row v, row ∈ new ->
          merchant_cache (enrichment self) !! description row = Some v ->
          enriched_info row = Some v)
    /\ (forall row, row ∈ new ->
          merchant_cache (enrichment self) !! description row = None ->
          search_tool w (question (format_cell lib) (description row)) = None ->
          enriched_info row = Some "Unknown"
          /\ merchant_cache (enrichment self') !! description row = None)
    /\ (forall r1 r2, r1 ∈ new -> r2 ∈ new ->
          description r1 = description r2 -> enriched_info r1 = enriched_info r2).
Proof.
  intros Hrun.
  destruct (_ingest_csv_rows _ _ _ _ _ Hrun)
    as (mapping & date_col & date_column & dates & desc_col & desc_column & amount_col
        & amount_column & raw_amounts & sign_convention & new & _ & Htab & _ & Hrows & Hst & _).
  assert (Henr : forall row, row ∈ new ->
            enriched_info row
            = Some (resolve (format_cell lib) (search_tool w)
                      (merchant_cache (enrichment self)) (description row))).
  { intros row [i Hi]%list_elem_of_lookup. by destruct (Hrows i row Hi) as (_ & _ & _ & _ & _ & _ & ?). }
  exists new. split; [done|]. split; [done|]. split; [|split].
  - intros row v Hrow Hv. rewrite Henr by done. unfold resolve. by rewrite Hv.
  - intros row Hrow Hc Hs. split.
    + rewrite Henr by done. unfold resolve. by rewrite Hc, Hs.
    + rewrite Hst, enrich_batch_cache. unfold cache_after. rewrite Hc, Hs.
      by destruct (decide (description row ∈ description <$> new)).
  - intros r1 r2 H1 H2 Hd. by rewrite !Henr, Hd.
Qed.

Lemma enrichment_follows_description_witness :
  exists new,
    table demo_ingested = Some (default [] (table demo_session) ++ new)
    /\ enriched_info <$> new = [Some "Coffee shop chain"; Some "Coffee shop chain"; Some "Unknown"].
Proof.
  destruct (enrichment_follows_description demo_library demo_world demo_file demo_session
              demo_ingested) as (new & Htab & _).
  - vm_compute. reflexivity.
  - exists new. split; [exact Htab|].
    vm_compute in Htab. injection Htab as <-. vm_compute. reflexivity.
Defined.

Lemma basename_no_slash (p : string) : contains "/" (basename p) = false.
Proof.
  induction p as [|c p IH]; [done|]. cbn [basename].
  destruct (contains "/" p) eqn:Hp; [done|].
  destruct (Ascii.eqb_spec c "/") as [->|Hne]; [done|].
  cbn [contains startswith]. rewrite Hp.
  destruct (Ascii.eqb_spec "/" c) as [<-|_]; done.
Qed.

Lemma basename_join (dir name : string) :
  contains "/" name = false -> basename (dir +:+ "/" +:+ name) = name.
Proof.
  intros Hn. induction dir as [|c dir IH].
  - change ("" +:+ "/" +:+ name) with (String "/" name). cbn [basename]. by rewrite Hn.
  - change (String c dir +:+ "/" +:+ name) with (String c (dir +:+ "/" +:+ name)).
    cbn [basename].
    assert (contains "/" (dir +:+ "/" +:+ name) = true) as ->; [|done].
    apply PyStrFacts.contains_spec. by exists dir, name.
Qed.

(** X13: the [source_file] of every appended row is the base name of the
    path: it holds no slash, and for a path [dir/name] it is [name].  Where
    the mapping has no category_col, a null or the empty string, every
    appended row has the category "Uncategorized"; where it names a column,
    that column is in the frame and row [i] has its cell [i]. *)
Theorem rows_category_and_source_file lib w file self self' :
  _ingest_csv lib w file self = inr self' ->
  exists mapping new,
    completion w = inr mapping
    /\ table self' = Some (default [] (table self) ++ new)
    /\ (forall row, row ∈ new ->
          source_file row = basename (file_path file)
          /\ contains "/" (source_file row) = false
          /\ (forall dir name, file_path file = dir +:+ "/" +:+ name ->
                contains "/" name = false -> source_file row = name))
    /\ (mapping !! "category_col" = None \/ mapping !! "category_col" = Some None
        \/ mapping !! "category_col" = Some (Some "") ->
        forall row, row ∈ new -> category row = CStr "Uncategorized")
    /\ (forall name, mapping !! "category_col" = Some (Some name) -> name <> "" ->
        exists category_column,
          df_columns (frame file) !! name = Some category_column
          /\ forall i row, new !! i = Some row ->
               category row = cell_at (column_cells category_column) i).
Proof.
  intros Hrun.
  destruct (_ingest_csv_rows _ _ _ _ _ Hrun)
    as (mapping & date_col & date_column & dates & desc_col & desc_column & amount_col
        & amount_column & raw_amounts & sign_convention & new & Hread & Htab & _ & Hrows & _).
  destruct Hread as (Hmap & _ & _ & _ & _ & _ & _ & _ & _ & _ & Hcat).
  exists mapping, new. split; [done|]. split; [done|]. split; [|split].
  - intros row [i Hi]%list_elem_of_lookup.
    destruct (Hrows i row Hi) as (_ & _ & _ & _ & _ & Hsrc & _).
    rewrite Hsrc. split; [done|]. split; [apply basename_no_slash|].
    intros dir name -> Hname. by apply basename_join.
  - intros Hnull row [i Hi]%list_elem_of_lookup.
    destruct (Hrows i row Hi) as (_ & _ & _ & _ & Hc & _).
    rewrite Hc. unfold mapping_get.
    by destruct Hnull as [-> | [-> | ->]].
  - intros name Hname Hne.
    assert (Hget : mapping_get mapping "category_col" = Some name).
    { unfold mapping_get. by rewrite Hname. }
    assert (Htruthy : truthy (Some name) = true) by (by destruct name).
    rewrite Hget in Hcat. specialize (Hcat Htruthy).
    unfold df_getitem in Hcat.
    destruct (df_columns (frame file) !! name) as [category_column|] eqn:Hcol; [|done].
    exists category_column. split; [done|].
    intros i row Hi. destruct (Hrows i row Hi) as (_ & _ & _ & _ & Hc & _).
    rewrite Hc, Hget, Htruthy. unfold df_getitem. by rewrite Hcol.
Qed.

Lemma rows_category_and_source_file_witness :
  exists new,
    table demo_ingested = Some (default [] (table demo_session) ++ new)
    /\ source_file <$> new = ["chase.csv"; "chase.csv"; "chase.csv"]
    /\ category <$> new = [CStr "Uncategorized"; CStr "Uncategorized"; CStr "Uncategorized"].
Proof.
  destruct (rows_category_and_source_file demo_library demo_world demo_file demo_session
              demo_ingested) as (mapping & new & _ & Htab & _).
  - vm_compute. reflexivity.
  - exists new. split; [exact Htab|].
    vm_compute in Htab. injection Htab as <-. split; vm_compute; reflexivity.
Defined.

(** X14: nothing keeps a file from being ingested twice.  When the same
    file is ingested again and the completion is the same, its rows are
    appended a second time, after the first ones: as many again, and row by
    row with the same date, description, amount, category and source file.
    A row whose first enrichment was not "Unknown" gets the same
    enrichment again, from the cache. *)
Theorem reingesting_a_file_appends_it_again lib w1 w2 file self self1 self2 :
  completion w2 = completion w1 ->
  _ingest_csv lib w1 file self = inr self1 ->
  _ingest_csv lib w2 file self1 = inr self2 ->
  exists new1 new2,
    table self1 = Some (default [] (table self) ++ new1)
    /\ table self2 = Some (default [] (table self) ++ new1 ++ new2)
    /\ length new1 = df_len (frame file)
    /\ length new2 = df_len (frame file)
    /\ forall i r1 r2, new1 !! i = Some r1 -> new2 !! i = Some r2 ->
         transaction_date r2 = transaction_date r1
         /\ description r2 = description r1
         /\ amount r2 = amount r1
         /\ category r2 = category r1
         /\ source_file r2 = source_file r1
         /\ (enriched_info r1 <> Some "Unknown" -> enriched_info r2 = enriched_info r1).
Proof.
  intros Hsame Hrun1 Hrun2.
  destruct (_ingest_csv_rows _ _ _ _ _ Hrun1)
    as (mapping & date_col & date_column & dates & desc_col & desc_column & amount_col
        & amount_column & raw_amounts & sign_convention & new1 & Hread1 & Htab1 & Hlen1
        & Hrows1 & Hst1 & _).
  destruct (_ingest_csv_rows _ _ _ _ _ Hrun2)
    as (mapping' & date_col' & date_column' & dates' & desc_col' & desc_column' & amount_col'
        & amount_column' & raw_amounts' & sign_convention' & new2 & Hread2 & Htab2 & Hlen2
        & Hrows2 & _).
  destruct Hread1 as (Hm & Hdc & Hdf & Hdt & Hsc & Hsf & Hac & Haf & Hraw & Hsign & _).
  destruct Hread2 as (Hm' & Hdc' & Hdf' & Hdt' & Hsc' & Hsf' & Hac' & Haf' & Hraw' & Hsign' & _).
  assert (mapping' = mapping) as -> by congruence.
  assert (date_col' = date_col) as -> by congruence.
  assert (date_column' = date_column) as -> by congruence.
  assert (dates' = dates) as -> by congruence.
  assert (desc_col' = desc_col) as -> by congruence.
  assert (desc_column' = desc_column) as -> by congruence.
  assert (amount_col' = amount_col) as -> by congruence.
  assert (amount_column' = amount_column) as -> by congruence.
  assert (raw_amounts' = raw_amounts) as -> by congruence.
  assert (sign_convention' = sign_convention) as -> by congruence.
  exists new1, new2. split; [done|]. split.
  { rewrite Htab2, Htab1. cbn. by rewrite app_assoc. }
  split; [done|]. split; [done|].
  intros i r1 r2 Hi1 Hi2.
  destruct (Hrows1 i r1 Hi1) as (_ & Hd1 & Hdesc1 & Ha1 & Hc1 & Hs1 & He1).
  destruct (Hrows2 i r2 Hi2) as (_ & Hd2 & Hdesc2 & Ha2 & Hc2 & Hs2 & He2).
  assert (Hdesc : description r2 = description r1) by congruence.
  repeat (split; [congruence|]).
  intros Hknown. rewrite He2, He1, Hdesc. f_equal.
  rewrite He1 in Hknown.
  unfold resolve in *. rewrite Hst1, enrich_batch_cache. unfold cache_after.
  destruct (merchant_cache (enrichment self) !! description r1) as [v|]; [done|].
  rewrite decide_True by (apply list_elem_of_fmap; exists r1; split; [done|];
                          by eapply list_elem_of_lookup_2).
  by destruct (search_tool w1 (question (format_cell lib) (description r1))).
Qed.

Lemma reingesting_a_file_appends_it_again_witness :
  exists self2 rows,
    _ingest_csv demo_library demo_world demo_file demo_ingested = inr self2
    /\ table self2 = Some rows
    /\ length rows = 6%nat.
Proof.
  destruct (reingesting_a_file_appends_it_again demo_library demo_world demo_world demo_file
              demo_session demo_ingested
              (match _ingest_csv demo_library demo_world demo_file demo_ingested with
               | inr s => s | inl _ => demo_session end))
    as (new1 & new2 & Ht1 & Ht2 & Hl1 & Hl2 & _).
  - reflexivity.
  - vm_compute. reflexivity.
  - vm_compute. reflexivity.
  - eexists _, _. split; [vm_compute; reflexivity|]. split; [exact Ht2|].
    rewrite !length_app, Hl1, Hl2. reflexivity.
Defined.

(** X15: the two ingestion paths on the same completion and frame.
    Whatever [_ingest_csv] accepts, [ingest_csv] of
    [utils/data_ingestion.py] accepts as well.  Not the other way round: a
    mapping without the key sign_convention makes [_ingest_csv] raise,
    while [ingest_csv] reads the key with [get] and returns or raises as it
    would with any value under that key. *)
Theorem utility_path_accepts_more lib w file self path table :
  (is_ok (_ingest_csv lib w file self) = true ->
   is_ok (DataIngestion.ingest_csv lib (completion w) path (frame file) table) = true)
  /\ (forall mapping,
        completion w = inr mapping -> mapping !! "sign_convention" = None ->
        is_ok (_ingest_csv lib w file self) = false
        /\ forall v,
             is_ok (DataIngestion.ingest_csv lib (inr (<["sign_convention" := v]> mapping))
                      path (frame file) table)
             = is_ok (DataIngestion.ingest_csv lib (inr mapping) path (frame file) table)).
Proof.
  split.
  - intros Hok. destruct (_ingest_csv lib w file self) as [e|self'] eqn:Hrun; [done|].
    destruct (_ingest_csv_rows _ _ _ _ _ Hrun)
      as (mapping & date_col & date_column & dates & desc_col & desc_column & amount_col
          & amount_column & raw_amounts & sign_convention & new & Hread & _).
    destruct Hread as (Hm & Hdc & Hdf & Hdt & Hsc & Hsf & Hac & Haf & Hraw & Hsign & Hcat).
    unfold DataIngestion.ingest_csv, mapping_getitem, pd_to_datetime.
    rewrite Hm. cbn [Exn.bind]. rewrite Hdc. cbn [Exn.bind ok]. rewrite Hdf. cbn [Exn.bind].
    rewrite Hdt. cbn [Exn.bind ok]. rewrite Hsc. cbn [Exn.bind ok]. rewrite Hsf. cbn [Exn.bind].
    rewrite Hac. cbn [Exn.bind ok]. rewrite Haf. cbn [Exn.bind]. rewrite Hraw. cbn [Exn.bind].
    destruct (truthy (mapping_get mapping "category_col")) eqn:Ht; [|done].
    specialize (Hcat eq_refl). unfold mapping_get in Ht, Hcat.
    destruct (mapping !! "category_col") as [category_col|]; [|done].
    cbn [default from_option Datatypes.id Exn.bind ok] in *.
    by destruct (df_getitem (frame file) category_col).
  - intros mapping Hm Hnone. split.
    + unfold _ingest_csv. rewrite Hm. cbn [Exn.bind].
      destruct (mapping_getitem mapping "date_col") as [e|date_col]; cbn [Exn.bind]; [done|].
      destruct (df_getitem (frame file) date_col) as [e|date_column]; cbn [Exn.bind]; [done|].
      destruct (pd_to_datetime lib date_column) as [e|dates]; cbn [Exn.bind]; [done|].
      destruct (mapping_getitem mapping "desc_col") as [e|desc_col]; cbn [Exn.bind]; [done|].
      destruct (df_getitem (frame file) desc_col) as [e|desc_column]; cbn [Exn.bind]; [done|].
      destruct (mapping_getitem mapping "amount_col") as [e|amount_col]; cbn [Exn.bind]; [done|].
      destruct (df_getitem (frame file) amount_col) as [e|amount_column]; cbn [Exn.bind]; [done|].
      destruct (pd_to_numeric lib amount_column) as [e|raw_amounts]; cbn [Exn.bind]; [done|].
      unfold mapping_getitem. by rewrite Hnone.
    + intros v. unfold DataIngestion.ingest_csv, mapping_getitem, mapping_get.
      cbn [Exn.bind]. rewrite !lookup_insert_ne by done.
      destruct (mapping !! "date_col") as [date_col|]; cbn [Exn.bind ok raise]; [|done].
      destruct (df_getitem (frame file) date_col) as [e|date_column]; cbn [Exn.bind]; [done|].
      destruct (pd_to_datetime lib date_column) as [e|dates]; cbn [Exn.bind]; [done|].
      destruct (mapping !! "desc_col") as [desc_col|]; cbn [Exn.bind ok raise]; [|done].
      destruct (df_getitem (frame file) desc_col) as [e|desc_column]; cbn [Exn.bind]; [done|].
      destruct (mapping !! "amount_col") as [amount_col|]; cbn [Exn.bind ok raise]; [|done].
      destruct (df_getitem (frame file) amount_col) as [e|amount_column]; cbn [Exn.bind]; [done|].
      destruct (pd_to_numeric lib amount_column) as [e|raw_amounts]; cbn [Exn.bind]; [done|].
      destruct (truthy (default None (mapping !! "category_col"))); [|done].
      destruct (mapping !! "category_col") as [category_col|]; cbn [Exn.bind ok raise]; [|done].
      by destruct (df_getitem (frame file) category_col).
Qed.

Lemma utility_path_accepts_more_witness :
  is_ok (DataIngestion.ingest_csv demo_library (completion demo_world) "chase.csv"
           (frame demo_file) None) = true.
Proof.
  apply (proj1 (utility_path_accepts_more demo_library demo_world demo_file demo_session
                  "chase.csv" None)).
  vm_compute. reflexivity.
Defined.

Lemma zip_fmap_same {A B C} (f : A -> B) (g : A -> C) (l : list A) :
  zip (f <$> l) (g <$> l) = (fun x => (f x, g x)) <$> l.
Proof. induction l as [|x l IH]; [done|]. cbn. by rewrite IH. Qed.

(** X16: what [_sync_to_qdrant] writes.  The table and the cache are left
    alone; the collection is sized by the length of the embedding of "test"
    and holds one point per row of the table, in the order of the rows.
    Point [i] carries the id, amount, category and printed date of row [i],
    and its text is "description (category)", followed by " - " and the
    enrichment unless that is null, empty or "Unknown" (the third test of
    the condition, for the empty string, never decides). *)
Theorem _sync_to_qdrant_points lib self self' :
  _sync_to_qdrant lib self = inr self' ->
  exists rows c,
    table self = Some rows /\ rows <> []
    /\ table self' = Some rows
    /\ enrichment self' = enrichment self
    /\ collection self' = Some c
    /\ vector_size c = length (embed_query lib "test")
    /\ points c
       = (fun row => {| vector := embed_documents lib (row_text lib row);
                        page_content := row_text lib row;
                        metadata := row_metadata lib row |}) <$> rows
    /\ (forall i p, points c !! i = Some p ->
          exists row, rows !! i = Some row
                      /\ meta_id (metadata p) = id row
                      /\ meta_amount (metadata p) = amount row
                      /\ meta_category (metadata p) = category row
                      /\ meta_transaction_date (metadata p) = str_date lib (transaction_date row)
                      /\ page_content p
                         = (format_cell lib (description row) +:+ " ("
                            +:+ format_cell lib (category row) +:+ ")")
                           +:+ match enriched_info row with
                               | Some info =>
                                   if decide (info = "" \/ info = "Unknown") then ""
                                   else " - " +:+ info
                               | None => ""
                               end).
Proof.
  unfold _sync_to_qdrant. intros Hrun.
  destruct (table self) as [rows|] eqn:Ht; [|done].
  destruct (decide (rows = [])) as [->|Hne]; [done|].
  rewrite bool_decide_eq_false_2 in Hrun by done.
  injection Hrun as <-. cbn [table enrichment collection].
  eexists rows, _. split; [done|]. split; [done|]. split; [done|]. split; [done|].
  split; [reflexivity|]. split; [reflexivity|].
  assert (Hpoints : points (add_texts lib (row_text lib <$> rows) (row_metadata lib <$> rows)
                              (recreate_collection (length (embed_query lib "test"))
                                 (collection self)))
                    = (fun row => {| vector := embed_documents lib (row_text lib row);
                                     page_content := row_text lib row;
                                     metadata := row_metadata lib row |}) <$> rows).
  { cbn. by rewrite zip_fmap_same, <- list_fmap_compose. }
  split; [done|].
  intros i p Hi. rewrite Hpoints, list_lookup_fmap in Hi.
  destruct (rows !! i) as [row|]; [|done]. injection Hi as <-.
  exists row. split; [done|]. cbn [metadata page_content row_metadata meta_id meta_amount
                                 meta_category meta_transaction_date].
  repeat (split; [done|]).
  unfold row_text. destruct (enriched_info row) as [info|].
  - destruct (decide (info = "" \/ info = "Unknown")) as [[-> | ->] | Hinfo].
    + cbn. by rewrite PyStrFacts.append_nil_r.
    + cbn. by rewrite PyStrFacts.append_nil_r.
    + assert (truthy (Some info) = true) as -> by (destruct info; [tauto | done]).
      rewrite !bool_decide_eq_false_2; [done | |]; intros [= ->]; tauto.
  - cbn. by rewrite PyStrFacts.append_nil_r.
Qed.

Lemma _sync_to_qdrant_points_witness :
  exists self' c,
    _sync_to_qdrant demo_library demo_ingested = inr self'
    /\ collection self' = Some c
    /\ page_content <$> points c
       = ["Starbucks (Uncategorized) - Coffee shop chain";
          "Starbucks (Uncategorized) - Coffee shop chain";
          "Walmart (Uncategorized)"].
Proof.
  destruct (_sync_to_qdrant_points demo_library demo_ingested
              (match _sync_to_qdrant demo_library demo_ingested with
               | inr s => s | inl _ => demo_session end))
    as (rows & c & Ht & _ & _ & _ & Hc & _ & Hpoints & _).
  - vm_compute. reflexivity.
  - eexists _, c. split; [vm_compute; reflexivity|]. split; [exact Hc|].
    rewrite Hpoints. vm_compute in Ht. injection Ht as <-. vm_compute. reflexivity.
Defined.

(** What the loop of [setup_session] leaves alone, and what it only adds
    to, whether it ends well or not. *)
Lemma _ingest_csv_grows lib w file self self' :
  _ingest_csv lib w file self = inr self' ->
  default [] (table self) `prefix_of` default [] (table self')
  /\ length (default [] (table self'))
     = (length (default [] (table self)) + df_len (frame file))%nat
  /\ table self' <> None
  /\ merchant_cache (enrichment self) ⊆ merchant_cache (enrichment self')
  /\ searches (enrichment self) `prefix_of` searches (enrichment self')
  /\ llm_provider self' = llm_provider self
  /\ model_name self' = model_name self
  /\ embedding_model_name self' = embedding_model_name self
  /\ collection self' = collection self
  /\ vector_store self' = vector_store self
  /\ agent self' = agent self.
Proof.
  intros Hrun.
  destruct (_ingest_csv_rows _ _ _ _ _ Hrun)
    as (mapping & date_col & date_column & dates & desc_col & desc_column & amount_col
        & amount_column & raw_amounts & sign_convention & new & _ & Htab & Hlen & _ & Hst & Hrest).
  rewrite Htab, Hst. cbn [default from_option Datatypes.id].
  split; [by apply prefix_app_r|]. split; [by rewrite length_app, Hlen|]. split; [done|].
  split; [apply enrich_batch_cache_keeps|]. split; [apply enrich_batch_searches_grow|]. done.
Qed.

Lemma ingest_loop_grows lib csv_paths self :
  default [] (table self) `prefix_of` default [] (table (ingest_loop lib csv_paths self).1)
  /\ ((ingest_loop lib csv_paths self).2 = None ->
      length (default [] (table (ingest_loop lib csv_paths self).1))
      = (length (default [] (table self))
         + sum_list_with (fun p => df_len (frame p.2)) csv_paths)%nat)
  /\ (table (ingest_loop lib csv_paths self).1 = None -> table self = None)
  /\ merchant_cache (enrichment self)
     ⊆ merchant_cache (enrichment (ingest_loop lib csv_paths self).1)
  /\ searches (enrichment self)
     `prefix_of` searches (enrichment (ingest_loop lib csv_paths self).1)
  /\ llm_provider (ingest_loop lib csv_paths self).1 = llm_provider self
  /\ model_name (ingest_loop lib csv_paths self).1 = model_name self
  /\ embedding_model_name (ingest_loop lib csv_paths self).1 = embedding_model_name self
  /\ collection (ingest_loop lib csv_paths self).1 = collection self
  /\ vector_store (ingest_loop lib csv_paths self).1 = vector_store self
  /\ agent (ingest_loop lib csv_paths self).1 = agent self.
Proof.
  revert self. induction csv_paths as [|[w file] rest IH]; intros self; cbn [ingest_loop].
  - cbn. repeat split; try done.
  - destruct (_ingest_csv lib w file self) as [e|self'] eqn:Hrun.
    + cbn. repeat split; try done.
    + destruct (_ingest_csv_grows _ _ _ _ _ Hrun)
        as (Ht & Hn & Hsome & Hc & Hs & Hp & Hm & He & Hcol & Hv & Ha).
      destruct (IH self') as (Ht' & Hn' & Hsome' & Hc' & Hs' & Hp' & Hm' & He' & Hcol' & Hv' & Ha').
      split; [by etrans|]. split.
      { intros Hok. rewrite (Hn' Hok), Hn. cbn. lia. }
      split; [intros Hnone; by apply Hsome' in Hnone|].
      split; [by etrans|]. split; [by etrans|].
      repeat split; congruence.
Qed.

(** X17: [setup_session] only adds.  However it ends, the rows the table
    held before are still its first rows, every entry of the merchant cache
    is still there with its value, the searches sent before are the first of
    those sent, and provider, model and embedding model are unchanged. *)
Theorem setup_session_only_appends lib csv_paths self :
  default [] (table self) `prefix_of` default [] (table (setup_session lib csv_paths self).1)
  /\ merchant_cache (enrichment self)
     ⊆ merchant_cache (enrichment (setup_session lib csv_paths self).1)
  /\ searches (enrichment self)
     `prefix_of` searches (enrichment (setup_session lib csv_paths self).1)
  /\ llm_provider (setup_session lib csv_paths self).1 = llm_provider self
  /\ model_name (setup_session lib csv_paths self).1 = model_name self
  /\ embedding_model_name (setup_session lib csv_paths self).1 = embedding_model_name self.
Proof.
  destruct (ingest_loop_grows lib csv_paths self)
    as (Ht & _ & _ & Hc & Hs & Hp & Hm & He & _).
  unfold setup_session.
  destruct (ingest_loop lib csv_paths self) as [self1 [e|]]; [done|].
  cbn [fst] in *.
  destruct (_sync_to_qdrant lib self1) as [e|self2] eqn:Hsync; [done|].
  unfold _sync_to_qdrant in Hsync.
  destruct (table self1) as [rows|]; [|done].
  destruct (bool_decide (rows = [])); [done|].
  injection Hsync as <-. done.
Qed.



Lemma join_values_None (blocks : list block) :
  join_values (text_parts blocks) = None
  <-> Exists (fun b => ~ text_is_str b) (filter (fun b => is_text_block b = true) blocks).
Proof.
  induction blocks as [|b blocks IH]; [cbn; split; [done | by intros ?%Exists_nil]|].
  rewrite filter_cons. cbn [text_parts].
  destruct b as [d|s]; cbn [is_text_block].
  - destruct (bool_decide (d !! "type" = Some (PyString "text"))) eqn:Ht.
    + rewrite decide_True by done. rewrite Exists_cons, <- IH. cbn [text_is_str].
      destruct (d !! "text") as [[s | | z]|]; cbn [default from_option join_values].
      * destruct (join_values (text_parts blocks)); cbn; split; try done.
        -- intros [Hn | ?]; [|done]. destruct Hn. right. by exists s.
        -- intros _. by right.
      * split; [|done]. intros _. left. intros [? | [s ?]]; done.
      * split; [|done]. intros _. left. intros [? | [s ?]]; done.
      * destruct (join_values (text_parts blocks)); cbn; split; try done.
        -- intros [Hn | ?]; [|done]. destruct Hn. by left.
        -- intros _. by right.
    + rewrite decide_False by done. apply IH.
  - rewrite decide_False by done. apply IH.
Qed.

Lemma text_parts_of_text_blocks (blocks : list block) :
  text_parts (filter (fun b => is_text_block b = true) blocks) = text_parts blocks.
Proof.
  induction blocks as [|b blocks IH]; [done|].
  rewrite filter_cons. destruct b as [d|s]; cbn [is_text_block text_parts].
  - destruct (bool_decide (d !! "type" = Some (PyString "text"))) eqn:Ht.
    + rewrite decide_True by done. cbn [text_parts]. by rewrite Ht, IH.
    + by rewrite decide_False.
  - by rewrite decide_False.
Qed.

(** X19: when [chat] raises.  For a list of blocks it raises [TypeError]
    exactly when some dict block of type "text" has a "text" that is no
    [str], and returns otherwise; blocks that are no text blocks have no
    influence on the result; and a single text block gives what a plain
    string content with its text gives. *)
Theorem chat_raises_on_non_str_text (blocks : list block) :
  (chat (ContentList blocks) = raise TypeError
   <-> Exists (fun b => ~ text_is_str b) (filter (fun b => is_text_block b = true) blocks))
  /\ (is_ok (chat (ContentList blocks)) = true
      <-> Forall text_is_str (filter (fun b => is_text_block b = true) blocks))
  /\ chat (ContentList (filter (fun b => is_text_block b = true) blocks))
     = chat (ContentList blocks)
  /\ (forall d s, d !! "type" = Some (PyString "text") -> d !! "text" = Some (PyString s) ->
        chat (ContentList [BlockDict d]) = chat (ContentStr s)).
Proof.
  split; [|split; [|split]].
  - rewrite <- join_values_None. unfold chat.
    destruct (join_values (text_parts blocks)); split; done.
  - split.
    + intros Hok. apply Forall_forall. intros b Hb.
      destruct b as [d|s]; [|done]. cbn.
      destruct (d !! "text") as [[s | | z]|] eqn:Hd; [right; by exists s | | | by left].
      * assert (chat (ContentList blocks) = raise TypeError) as Hraise; [|by rewrite Hraise in Hok].
        unfold chat. assert (join_values (text_parts blocks) = None) as ->; [|done].
        apply join_values_None, Exists_exists. exists (BlockDict d). split; [done|].
        cbn. rewrite Hd. intros [? | [s ?]]; done.
      * assert (chat (ContentList blocks) = raise TypeError) as Hraise; [|by rewrite Hraise in Hok].
        unfold chat. assert (join_values (text_parts blocks) = None) as ->; [|done].
        apply join_values_None, Exists_exists. exists (BlockDict d). split; [done|].
        cbn. rewrite Hd. intros [? | [s ?]]; done.
    + intros Hstr. unfold chat. by rewrite text_parts_filter.
  - unfold chat. by rewrite text_parts_of_text_blocks.
  - intros d s Ht Hs. unfold chat. cbn [text_parts].
    rewrite bool_decide_eq_true_2 by done. by rewrite Hs.
Qed.

Lemma chat_raises_on_non_str_text_witness :
  chat (ContentList [text_block "You spent 42.50";
                     BlockDict (<["type" := PyString "text"]> (<["text" := PyInt 42]> ∅))])
  = raise TypeError.
Proof.
  apply (proj1 (chat_raises_on_non_str_text _)).
  vm_compute. right. left. intros [Hnone | [s Hs]]; discriminate.
Defined.

(** X20: what [ingest_csv] of [utils/data_ingestion.py] appends.  When it
    returns, the table holds the rows it held and then one row per date of
    the converted date column; row [i] has date [i] and cell [i] of the
    description column; its [source_file] is the path as it was given, not
    the base name; and where the mapping gives no category column its
    category is "Uncategorized". *)
Theorem ingest_csv_appends lib completion path df table table' :
  DataIngestion.ingest_csv lib completion path df table = inr table' ->
  exists mapping date_col date_column dates desc_col desc_column new,
    completion = inr mapping
    /\ mapping !! "date_col" = Some date_col
    /\ df_getitem df date_col = inr date_column
    /\ to_datetime lib date_column = Some dates
    /\ mapping !! "desc_col" = Some desc_col
    /\ df_getitem df desc_col = inr desc_column
    /\ table' = Some (default [] table ++ new)
    /\ length new = length dates
    /\ (forall i row, new !! i = Some row ->
          DataIngestion.transaction_date row = default None (dates !! i)
          /\ DataIngestion.description row = cell_at (column_cells desc_column) i
          /\ DataIngestion.source_file row = path
          /\ (truthy (mapping_get mapping "category_col") = false ->
              DataIngestion.category row = CStr "Uncategorized")).
Proof.
  unfold DataIngestion.ingest_csv. intros Hrun.
  bind_ok Hrun mapping Emap. bind_ok Hrun date_col Edc.
  bind_ok Hrun date_column Edf. bind_ok Hrun dates Edates.
  bind_ok Hrun desc_col Esc. bind_ok Hrun desc_column Esf.
  bind_ok Hrun amount_col Eac. bind_ok Hrun amount_column Eaf.
  bind_ok Hrun raw_amounts Eraw. bind_ok Hrun categories Ecat.
  injection Hrun as <-.
  exists mapping, date_col, date_column, dates, desc_col, desc_column. eexists.
  split; [done|]. split; [by apply mapping_getitem_inv|]. split; [done|].
  split.
  { unfold pd_to_datetime in Edates.
    by destruct (to_datetime lib date_column) as [l|]; [injection Edates as ->|]. }
  split; [by apply mapping_getitem_inv|]. split; [done|].
  split; [reflexivity|]. split; [by rewrite length_fmap, length_seq|].
  intros i row Hi. rewrite list_lookup_fmap in Hi.
  destruct (seq 0 (length dates) !! i) as [j|] eqn:Hj; [|done].
  apply lookup_seq in Hj as [-> Hlt]. injection Hi as <-.
  cbn [DataIngestion.transaction_date DataIngestion.description DataIngestion.source_file
       DataIngestion.category].
  split; [done|]. split; [by apply cell_at_fmap_seq|]. split; [done|].
  intros Hfalse. rewrite Hfalse in Ecat. cbn in Ecat. injection Ecat as <-.
  by apply cell_at_fmap_seq.
Qed.

Lemma ingest_csv_appends_witness :
  exists rows,
    DataIngestion.ingest_csv demo_library (completion demo_world) "/tmp/session/chase.csv"
      demo_frame None = inr (Some rows)
    /\ DataIngestion.source_file <$> rows
       = ["/tmp/session/chase.csv"; "/tmp/session/chase.csv"; "/tmp/session/chase.csv"].
Proof.
  destruct (ingest_csv_appends demo_library (completion demo_world) "/tmp/session/chase.csv"
              demo_frame None
              (match DataIngestion.ingest_csv demo_library (completion demo_world)
                       "/tmp/session/chase.csv" demo_frame None with
               | inr t => t | inl _ => None end))
    as (mapping & date_col & date_column & dates & desc_col & desc_column & new & _ & _ & _ & _
        & _ & _ & Htab & _).
  - vm_compute. reflexivity.
  - exists new. vm_compute in Htab. injection Htab as <-. split; vm_compute; reflexivity.
Defined.
End MoneyRagFacts.
